(** * The disk log consumer task of the write-ahead log

    A shallow embedding of [DiskLogConsumerTask] (RunTask, Terminate,
    WriteBuffersToLogFile, PersistLogFile and DiskLogConsumerTaskLoop) and
    the properties of its drain / persist / callback protocol.

    The consumer runs on one thread.  Everything that thread does to the
    outside world (locking, flushing, fsync, callbacks, notifications) is
    recorded, in program order, in an event trace that is part of the task
    state.  What the other threads do to the shared fields (enqueue filled
    buffers, request a forced persist, ask for termination) is given by a
    schedule, applied at the points where the consumer can observe it. *)

From Stdlib Require Import ZArith List Bool Lia.
Import ListNotations.
Open Scope Z_scope.

(** ** Data model *)

(** [uint64_t] arithmetic wraps around at 2^64. *)
Definition wrap64 (z : Z) : Z := z mod 2 ^ 64.

(** A commit callback is the pair [(callback.first, callback.second)]: a
    function pointer and the argument it is applied to. *)
Definition CommitCallback : Type := (nat * nat)%type.

(** Modelled from the spec: the class BufferedLogWriter is not among the
    sources.  A buffer stages [buffer_size_] bytes for the file [out_] that
    all buffers of one log manager share; FlushBuffer hands the staged bytes
    to the operating system, returns how many there were and resets the
    counter; Persist is the fsync of the file. *)
Record BufferedLogWriter : Type := {
  out_ : nat;
  buffer_size_ : Z
}.

(** Modelled from the spec: FlushBuffer returns the number of bytes handed
    to the operating system since the last flush and resets the counter. *)
Definition FlushBuffer (b : BufferedLogWriter) : Z * BufferedLogWriter :=
  (buffer_size_ b, {| out_ := out_ b; buffer_size_ := 0 |}).

(** [SerializedLogs] is the pair of a buffer and the callbacks of the
    transactions whose commit records are in it.  Ownership of the buffer
    travels with the pointer, so the buffer is kept by value in the entry. *)
Definition SerializedLogs : Type := (BufferedLogWriter * list CommitCallback)%type.

Inductive MetricsComponent : Type := LOGGING | TRANSACTION | GARBAGECOLLECTION.

(** Modelled from the spec: the metrics store is not among the sources.  It
    answers whether a component is enabled and records the consumer data. *)
Record MetricsStore : Type := {
  enabled_ : MetricsComponent -> bool
}.

(** What the consumer thread and the thread calling Terminate do, in
    program order. *)
Inductive Event : Type :=
| EvLock                      (* persist_lock_ acquired *)
| EvUnlock                    (* persist_lock_ released *)
| EvWaitFor                   (* disk_log_writer_thread_cv_.wait_for returned *)
| EvFlushBuffer (b : BufferedLogWriter) (bytes : Z)
| EvPersist (b : BufferedLogWriter)   (* Persist() returned *)
| EvCallback (c : CommitCallback)     (* callback.first(callback.second) *)
| EvClear                     (* commit_callbacks_.clear() *)
| EvNotifyPersistCv           (* persist_cv_.notify_all() *)
| EvNotifyWriterCv            (* disk_log_writer_thread_cv_.notify_one() *)
| EvYield                     (* std::this_thread::yield() *)
| EvRecordConsumerData (write_us persist_us num_bytes num_buffers : Z).

(** The fields of the task, the thread-local metrics store and the trace. *)
Record Task : Type := {
  run_task_ : bool;
  do_persist_ : bool;
  current_data_written_ : Z;
  commit_callbacks_ : list CommitCallback;
  filled_buffer_queue_ : list SerializedLogs;
  empty_buffer_queue_ : list BufferedLogWriter;
  buffers_ : list BufferedLogWriter;
  persist_interval_ : Z;        (* std::chrono::milliseconds *)
  persist_threshold_ : Z;
  metrics_store_ : option MetricsStore;
  trace : list Event
}.

Definition set_run_task (v : bool) (t : Task) : Task :=
  {| run_task_ := v; do_persist_ := do_persist_ t;
     current_data_written_ := current_data_written_ t;
     commit_callbacks_ := commit_callbacks_ t;
     filled_buffer_queue_ := filled_buffer_queue_ t;
     empty_buffer_queue_ := empty_buffer_queue_ t;
     buffers_ := buffers_ t; persist_interval_ := persist_interval_ t;
     persist_threshold_ := persist_threshold_ t;
     metrics_store_ := metrics_store_ t; trace := trace t |}.

Definition set_do_persist (v : bool) (t : Task) : Task :=
  {| run_task_ := run_task_ t; do_persist_ := v;
     current_data_written_ := current_data_written_ t;
     commit_callbacks_ := commit_callbacks_ t;
     filled_buffer_queue_ := filled_buffer_queue_ t;
     empty_buffer_queue_ := empty_buffer_queue_ t;
     buffers_ := buffers_ t; persist_interval_ := persist_interval_ t;
     persist_threshold_ := persist_threshold_ t;
     metrics_store_ := metrics_store_ t; trace := trace t |}.

Definition set_current_data_written (v : Z) (t : Task) : Task :=
  {| run_task_ := run_task_ t; do_persist_ := do_persist_ t;
     current_data_written_ := v;
     commit_callbacks_ := commit_callbacks_ t;
     filled_buffer_queue_ := filled_buffer_queue_ t;
     empty_buffer_queue_ := empty_buffer_queue_ t;
     buffers_ := buffers_ t; persist_interval_ := persist_interval_ t;
     persist_threshold_ := persist_threshold_ t;
     metrics_store_ := metrics_store_ t; trace := trace t |}.

Definition set_commit_callbacks (v : list CommitCallback) (t : Task) : Task :=
  {| run_task_ := run_task_ t; do_persist_ := do_persist_ t;
     current_data_written_ := current_data_written_ t;
     commit_callbacks_ := v;
     filled_buffer_queue_ := filled_buffer_queue_ t;
     empty_buffer_queue_ := empty_buffer_queue_ t;
     buffers_ := buffers_ t; persist_interval_ := persist_interval_ t;
     persist_threshold_ := persist_threshold_ t;
     metrics_store_ := metrics_store_ t; trace := trace t |}.

Definition set_filled_buffer_queue (v : list SerializedLogs) (t : Task) : Task :=
  {| run_task_ := run_task_ t; do_persist_ := do_persist_ t;
     current_data_written_ := current_data_written_ t;
     commit_callbacks_ := commit_callbacks_ t;
     filled_buffer_queue_ := v;
     empty_buffer_queue_ := empty_buffer_queue_ t;
     buffers_ := buffers_ t; persist_interval_ := persist_interval_ t;
     persist_threshold_ := persist_threshold_ t;
     metrics_store_ := metrics_store_ t; trace := trace t |}.

Definition set_empty_buffer_queue (v : list BufferedLogWriter) (t : Task) : Task :=
  {| run_task_ := run_task_ t; do_persist_ := do_persist_ t;
     current_data_written_ := current_data_written_ t;
     commit_callbacks_ := commit_callbacks_ t;
     filled_buffer_queue_ := filled_buffer_queue_ t;
     empty_buffer_queue_ := v;
     buffers_ := buffers_ t; persist_interval_ := persist_interval_ t;
     persist_threshold_ := persist_threshold_ t;
     metrics_store_ := metrics_store_ t; trace := trace t |}.

Definition set_trace (v : list Event) (t : Task) : Task :=
  {| run_task_ := run_task_ t; do_persist_ := do_persist_ t;
     current_data_written_ := current_data_written_ t;
     commit_callbacks_ := commit_callbacks_ t;
     filled_buffer_queue_ := filled_buffer_queue_ t;
     empty_buffer_queue_ := empty_buffer_queue_ t;
     buffers_ := buffers_ t; persist_interval_ := persist_interval_ t;
     persist_threshold_ := persist_threshold_ t;
     metrics_store_ := metrics_store_ t; trace := v |}.

(** ** A state monad with assertion failure and blocking *)

Inductive Failure : Type :=
| AssertionFailed       (* a TERRIER_ASSERT did not hold *)
| NullDereference.      (* a null pointer was dereferenced *)

(** A computation on the task either returns, or the process stops at a
    failure (the state at the failure is kept), or the computation has not
    returned yet when the schedule of the other threads ends. *)
Inductive Outcome (A : Type) : Type :=
| Done (a : A) (t : Task)
| Abort (why : Failure) (t : Task)
| Running (t : Task).

Arguments Done {A} a t.
Arguments Abort {A} why t.
Arguments Running {A} t.

Definition M (A : Type) : Type := Task -> Outcome A.

Definition ret {A : Type} (a : A) : M A := fun t => Done a t.

Definition bind {A B : Type} (m : M A) (k : A -> M B) : M B :=
  fun t =>
    match m t with
    | Done a t' => k a t'
    | Abort why t' => Abort why t'
    | Running t' => Running t'
    end.

Declare Scope task_scope.
Delimit Scope task_scope with task.
Notation "x <- m ;; k" := (bind m (fun x => k))
  (at level 61, m at next level, right associativity) : task_scope.
Notation "m ;; k" := (bind m (fun _ => k))
  (at level 61, right associativity) : task_scope.
Open Scope task_scope.

Definition get : M Task := fun t => Done t t.
Definition modify (f : Task -> Task) : M unit := fun t => Done tt (f t).
Definition emit (e : Event) : M unit :=
  modify (fun t => set_trace (trace t ++ [e]) t).

(** Modelled from the spec: the macro TERRIER_ASSERT is not among the
    sources; a failed assertion stops the program. *)
Definition TERRIER_ASSERT (cond : bool) : M unit :=
  fun t => if cond then Done tt t else Abort AssertionFailed t.

(** ** The queues *)

(** Modelled from the spec: the queue classes are not among the sources.
    Both queues are first-in first-out: Enqueue appends at the back,
    Dequeue removes the front, Empty tests for emptiness.  This is
    [filled_buffer_queue_->Empty()]. *)
Definition Empty : M bool :=
  t <- get ;; ret (match filled_buffer_queue_ t with [] => true | _ => false end).

(** Modelled from the spec: [filled_buffer_queue_->Dequeue(&logs)] moves
    the head of the queue into [logs]; on an empty queue [logs] keeps its
    value. *)
Definition Dequeue (logs : SerializedLogs) : M SerializedLogs :=
  t <- get ;;
  match filled_buffer_queue_ t with
  | [] => ret logs
  | e :: q => modify (set_filled_buffer_queue q) ;; ret e
  end.

(** Modelled from the spec: [empty_buffer_queue_->Enqueue(b)] appends at
    the back. *)
Definition Enqueue (b : BufferedLogWriter) : M unit :=
  modify (fun t => set_empty_buffer_queue (empty_buffer_queue_ t ++ [b]) t).

(** ** WriteBuffersToLogFile *)

(** One pass of the body of the while loop. *)
Definition WriteOneBuffer (logs : SerializedLogs) : M SerializedLogs :=
  logs <- Dequeue logs ;;
  let '(bytes, flushed) := FlushBuffer (fst logs) in
  emit (EvFlushBuffer (fst logs) bytes) ;;
  modify (fun t => set_current_data_written
                     (wrap64 (current_data_written_ t + bytes)) t) ;;
  modify (fun t => set_commit_callbacks (commit_callbacks_ t ++ snd logs) t) ;;
  Enqueue flushed ;;
  ret (flushed, snd logs).

(** [while (!filled_buffer_queue_->Empty()) { ... }], with the number of
    passes bounded by [fuel]. *)
Fixpoint WriteBuffersLoop (fuel : nat) (logs : SerializedLogs) : M unit :=
  empty <- Empty ;;
  if empty then ret tt
  else match fuel with
       | O => fun t => Running t
       | S fuel' => logs <- WriteOneBuffer logs ;; WriteBuffersLoop fuel' logs
       end.

(** The local [SerializedLogs logs] is default constructed. *)
Definition default_logs : SerializedLogs :=
  ({| out_ := 0%nat; buffer_size_ := 0 |}, []).

(** The loop removes one entry per pass and the consumer is the only
    thread that dequeues, so the length of the queue is fuel enough. *)
Definition WriteBuffersToLogFile : M unit :=
  t <- get ;;
  WriteBuffersLoop (length (filled_buffer_queue_ t)) default_logs.

(** ** PersistLogFile *)

Fixpoint run_callbacks (cbs : list CommitCallback) : M unit :=
  match cbs with
  | [] => ret tt
  | c :: cbs' => emit (EvCallback c) ;; run_callbacks cbs'
  end.

Definition PersistLogFile : M Z :=
  t <- get ;;
  TERRIER_ASSERT (negb (match buffers_ t with [] => true | _ => false end)) ;;
  match buffers_ t with
  | [] => fun t => Abort NullDereference t   (* front() of an empty vector *)
  | front :: _ =>
      emit (EvPersist front) ;;
      t <- get ;;
      let num_buffers := Z.of_nat (length (commit_callbacks_ t)) in
      run_callbacks (commit_callbacks_ t) ;;
      emit EvClear ;;
      modify (set_commit_callbacks []) ;;
      ret num_buffers
  end.

(** ** The other threads *)

(** What the other threads may have done to the shared fields between two
    observations of the consumer: the serializer enqueued filled buffers and
    took [taken] buffers from the empty queue, a ForceFlush caller set
    [do_persist_], Terminate cleared [run_task_].

    The consumer is the only thread that dequeues from the filled queue and
    producers only append to it, so an entry enqueued while a drain is
    running is either met by that drain, and then it is as if it had been
    enqueued before the drain, or it is not, and then it is as if it had
    been enqueued after it.  The interference is therefore applied at the
    wait, before the drain, and once more between the decision to persist
    and the test of the loop, where a cleared [run_task_] makes a
    difference of its own. *)
Record Interference : Type := {
  enqueued : list SerializedLogs;
  taken : nat;
  force_flush : bool;
  terminate : bool
}.

Definition interfere (i : Interference) : M unit :=
  modify (fun t => set_filled_buffer_queue (filled_buffer_queue_ t ++ enqueued i) t) ;;
  modify (fun t => set_empty_buffer_queue (skipn (taken i) (empty_buffer_queue_ t)) t) ;;
  modify (fun t => set_do_persist (do_persist_ t || force_flush i) t) ;;
  modify (fun t => set_run_task (run_task_ t && negb (terminate i)) t).

(** One pass of the do-while loop as the consumer sees the world: what
    happened while it waited, the readings of the clock and of the two
    scoped timers, and what happened between the decision to persist and
    the test [while (run_task_)].  Readings of
    [high_resolution_clock::now()] are in nanoseconds. *)
Record Iteration : Type := {
  at_wait : Interference;
  write_elapsed : Z;
  now_check : Z;
  now_persist : Z;
  persist_elapsed : Z;
  before_test : Interference
}.

(** ** DiskLogConsumerTaskLoop *)

(** The local variables of the loop. *)
Record Locals : Type := {
  write_us : Z;
  persist_us : Z;
  num_bytes : Z;
  num_buffers : Z;
  last_persist : Z
}.

(** [std::chrono::duration_cast<std::chrono::milliseconds>] of a duration
    in nanoseconds truncates toward zero. *)
Definition duration_cast_ms (ns : Z) : Z := Z.quot ns 1000000.

(** The condition of the [if] that guards the persist. *)
Definition persist_due (now : Z) (lv : Locals) (t : Task) : bool :=
  let timeout := duration_cast_ms (now - last_persist lv) >? persist_interval_ t in
  timeout || (current_data_written_ t >? persist_threshold_ t)
  || do_persist_ t || negb (run_task_ t).

(** The persist of the loop body, lines 84 to 96: the value
    returned is [(elapsed_us, num_buffers, num_bytes, last_persist)]. *)
Definition PersistInLoop (it : Iteration) : M (Z * Z * Z * Z) :=
  emit EvLock ;;
  n <- PersistLogFile ;;
  t <- get ;;
  let bytes := current_data_written_ t in
  modify (set_current_data_written 0) ;;
  modify (set_do_persist false) ;;
  emit EvUnlock ;;
  emit EvNotifyPersistCv ;;
  ret (persist_elapsed it, n, bytes, now_persist it).

(** [metrics_store_->...]: the pointer is dereferenced. *)
Definition deref_metrics_store : M MetricsStore :=
  fun t =>
    match metrics_store_ t with
    | Some s => Done s t
    | None => Abort NullDereference t
    end.

(** Modelled from the spec: [metrics_store_->ComponentEnabled(c)]. *)
Definition ComponentEnabled (c : MetricsComponent) : M bool :=
  s <- deref_metrics_store ;; ret (enabled_ s c).

(** Modelled from the spec: [metrics_store_->RecordConsumerData(...)]. *)
Definition RecordConsumerData (w p b n : Z) : M unit :=
  _ <- deref_metrics_store ;; emit (EvRecordConsumerData w p b n).

Definition zero_counters (lv : Locals) : Locals :=
  {| write_us := 0; persist_us := 0; num_bytes := 0; num_buffers := 0;
     last_persist := last_persist lv |}.

(** Lines 99 to 103; [&&] evaluates its right operand only when the left
    one is true. *)
Definition SubmitMetrics (lv : Locals) : M Locals :=
  if num_bytes lv >? 0 then
    t <- get ;;
    match metrics_store_ t with
    | None => ret lv
    | Some _ =>
        enabled <- ComponentEnabled LOGGING ;;
        if enabled then
          RecordConsumerData (write_us lv) (persist_us lv) (num_bytes lv)
                             (num_buffers lv) ;;
          ret (zero_counters lv)
        else ret lv
    end
  else ret lv.

(** Lines 56 to 66: the lock is taken, the wait releases it until the
    predicate holds or the interval has passed, and the scope releases it. *)
Definition WaitForWork (it : Iteration) : M unit :=
  emit EvLock ;;
  interfere (at_wait it) ;;
  emit EvWaitFor ;;
  emit EvUnlock.

(** The body of the do-while loop.  The two scoped timers store what they
    measured, a whole number of microseconds, in [elapsed_us]; when the
    pass does not persist, [persist_us] receives the reading of the first
    timer. *)
Definition LoopBody (it : Iteration) (lv : Locals) : M Locals :=
  WaitForWork it ;;
  WriteBuffersToLogFile ;;
  let elapsed_us := write_elapsed it in
  let write_us' := wrap64 (write_us lv + elapsed_us) in
  t <- get ;;
  r <- (if persist_due (now_check it) lv t then PersistInLoop it
        else ret (elapsed_us, num_buffers lv, num_bytes lv, last_persist lv)) ;;
  let '(elapsed_us, buffers, bytes, last) := r in
  lv' <- SubmitMetrics {| write_us := write_us'; persist_us := elapsed_us;
                          num_bytes := bytes; num_buffers := buffers;
                          last_persist := last |} ;;
  interfere (before_test it) ;;
  ret lv'.

(** [do { ... } while (run_task_)]: one element of the schedule per pass. *)
Fixpoint TaskLoop (sched : list Iteration) (lv : Locals) : M Locals :=
  match sched with
  | [] => fun t => Running t
  | it :: sched' =>
      lv' <- LoopBody it lv ;;
      t <- get ;;
      if run_task_ t then TaskLoop sched' lv' else ret lv'
  end.

(** The life of the consumer thread as the other threads shape it: the
    clock at the start of the loop, the passes of the loop, and what
    happens between the last test of [run_task_] and the final drain.
    What a producer enqueues after the final drain has found the queue
    empty is not part of the schedule: the thread never looks at the queue
    again. *)
Record Schedule : Type := {
  start_time : Z;
  iterations : list Iteration;
  at_exit : Interference
}.

(** The two calls after the loop, lines 106 and 107. *)
Definition FinalDrainAndPersist : M unit :=
  WriteBuffersToLogFile ;;
  _ <- PersistLogFile ;;
  ret tt.

Definition DiskLogConsumerTaskLoop (s : Schedule) : M unit :=
  modify (set_current_data_written 0) ;;
  _ <- TaskLoop (iterations s)
         {| write_us := 0; persist_us := 0; num_bytes := 0; num_buffers := 0;
            last_persist := start_time s |} ;;
  interfere (at_exit s) ;;
  FinalDrainAndPersist.

Definition RunTask (s : Schedule) : M unit :=
  modify (set_run_task true) ;;
  DiskLogConsumerTaskLoop s.

(** ** Terminate *)

(** [while (!run_task_) std::this_thread::yield();] Each element of
    [yields] says whether, while the caller is descheduled by that yield,
    the thread of the task executes the first statement of RunTask. *)
Fixpoint SpinUntilRunning (yields : list bool) : M unit :=
  t <- get ;;
  if run_task_ t then ret tt
  else match yields with
       | [] => fun t => Running t
       | started :: yields' =>
           emit EvYield ;;
           (if started then modify (set_run_task true) else ret tt) ;;
           SpinUntilRunning yields'
       end.

Definition Terminate (yields : list bool) : M unit :=
  SpinUntilRunning yields ;;
  t <- get ;;
  TERRIER_ASSERT (run_task_ t) ;;
  modify (set_run_task false) ;;
  emit EvNotifyWriterCv.

(** ** The vocabulary of the properties *)

(** *** What a drain and a persist leave behind *)

(** The callbacks of a sequence of queue entries, in queue order. *)
Definition cbs_of (q : list SerializedLogs) : list CommitCallback :=
  concat (map snd q).

(** The byte counts that FlushBuffer returns for the entries of [q]. *)
Definition flushed_bytes (q : list SerializedLogs) : list Z :=
  map (fun e => fst (FlushBuffer (fst e))) q.

(** The buffers of the entries of [q] after their flush. *)
Definition flushed_buffers (q : list SerializedLogs) : list BufferedLogWriter :=
  map (fun e => snd (FlushBuffer (fst e))) q.

(** One FlushBuffer event per entry of [q], in queue order. *)
Definition flush_events (q : list SerializedLogs) : list Event :=
  map (fun e => EvFlushBuffer (fst e) (fst (FlushBuffer (fst e)))) q.

(** [current_data_written_ += bytes] for each byte count in turn. *)
Definition add_written (written : Z) (bytes : list Z) : Z :=
  fold_left (fun acc b => wrap64 (acc + b)) bytes written.

(** The task a drain of the whole filled queue leaves; that this is what
    WriteBuffersToLogFile returns is WriteBuffersToLogFile_eq. *)
Definition after_drain (t : Task) : Task :=
  {| run_task_ := run_task_ t; do_persist_ := do_persist_ t;
     current_data_written_ :=
       add_written (current_data_written_ t) (flushed_bytes (filled_buffer_queue_ t));
     commit_callbacks_ := commit_callbacks_ t ++ cbs_of (filled_buffer_queue_ t);
     filled_buffer_queue_ := [];
     empty_buffer_queue_ :=
       empty_buffer_queue_ t ++ flushed_buffers (filled_buffer_queue_ t);
     buffers_ := buffers_ t; persist_interval_ := persist_interval_ t;
     persist_threshold_ := persist_threshold_ t;
     metrics_store_ := metrics_store_ t;
     trace := trace t ++ flush_events (filled_buffer_queue_ t) |}.

(** The events of one PersistLogFile: the fsync, the callbacks, the clear. *)
Definition persist_events (front : BufferedLogWriter)
                          (cbs : list CommitCallback) : list Event :=
  EvPersist front :: map EvCallback cbs ++ [EvClear].

(** The task PersistLogFile leaves (PersistLogFile_eq). *)
Definition after_persist (front : BufferedLogWriter) (t : Task) : Task :=
  set_commit_callbacks []
    (set_trace (trace t ++ persist_events front (commit_callbacks_ t)) t).

(** The callbacks invoked in a trace, in the order of their invocation. *)
Fixpoint invoked (tr : list Event) : list CommitCallback :=
  match tr with
  | [] => []
  | EvCallback c :: tr' => c :: invoked tr'
  | _ :: tr' => invoked tr'
  end.

(** The buffers on which Persist was called in a trace. *)
Fixpoint persisted (tr : list Event) : list BufferedLogWriter :=
  match tr with
  | [] => []
  | EvPersist b :: tr' => b :: persisted tr'
  | _ :: tr' => persisted tr'
  end.

(** *** The task after each phase of the loop body *)

(** The task after the other threads have acted (interfere_eq). *)
Definition after_interference (i : Interference) (t : Task) : Task :=
  set_run_task (run_task_ t && negb (terminate i))
    (set_do_persist (do_persist_ t || force_flush i)
       (set_empty_buffer_queue (skipn (taken i) (empty_buffer_queue_ t))
          (set_filled_buffer_queue (filled_buffer_queue_ t ++ enqueued i) t))).

(** The task when the wait has returned (WaitForWork_eq). *)
Definition after_wait (it : Iteration) (t : Task) : Task :=
  set_trace (trace t ++ [EvLock; EvWaitFor; EvUnlock])
    (after_interference (at_wait it) t).

(** The task when the [if] that guards the persist is evaluated. *)
Definition at_check (it : Iteration) (t : Task) : Task :=
  after_drain (after_wait it t).

(** The task after the persist of the loop body (PersistInLoop_eq). *)
Definition after_loop_persist (front : BufferedLogWriter) (t : Task) : Task :=
  set_trace (trace t ++ EvLock :: persist_events front (commit_callbacks_ t)
                     ++ [EvUnlock; EvNotifyPersistCv])
    (set_do_persist false
       (set_current_data_written 0 (set_commit_callbacks [] t))).

(** The condition under which lines 101 and 102 are executed. *)
Definition metrics_due (lv : Locals) (t : Task) : bool :=
  (num_bytes lv >? 0)
  && match metrics_store_ t with
     | Some s => enabled_ s LOGGING
     | None => false
     end.

(** The task after the metrics have been recorded (SubmitMetrics_eq). *)
Definition after_metrics (lv : Locals) (t : Task) : Task :=
  set_trace (trace t ++ [EvRecordConsumerData (write_us lv) (persist_us lv)
                           (num_bytes lv) (num_buffers lv)]) t.

(** The locals when the metrics are looked at, from the task [t1] at the
    persist decision. *)
Definition locals_at_metrics (it : Iteration) (lv : Locals) (t1 : Task) : Locals :=
  if persist_due (now_check it) lv t1 then
    {| write_us := wrap64 (write_us lv + write_elapsed it);
       persist_us := persist_elapsed it;
       num_bytes := current_data_written_ t1;
       num_buffers := Z.of_nat (length (commit_callbacks_ t1));
       last_persist := now_persist it |}
  else
    {| write_us := wrap64 (write_us lv + write_elapsed it);
       persist_us := write_elapsed it;
       num_bytes := num_bytes lv;
       num_buffers := num_buffers lv;
       last_persist := last_persist lv |}.

(** The task when the metrics are looked at. *)
Definition task_at_metrics (front : BufferedLogWriter) (it : Iteration)
                           (lv : Locals) (t : Task) : Task :=
  if persist_due (now_check it) lv (at_check it t)
  then after_loop_persist front (at_check it t)
  else at_check it t.

(** The locals and the task one pass of the loop leaves (LoopBody_eq). *)
Definition locals_after_body (front : BufferedLogWriter) (it : Iteration)
                             (lv : Locals) (t : Task) : Locals :=
  let lv2 := locals_at_metrics it lv (at_check it t) in
  if metrics_due lv2 (task_at_metrics front it lv t) then zero_counters lv2 else lv2.

Definition task_after_body (front : BufferedLogWriter) (it : Iteration)
                           (lv : Locals) (t : Task) : Task :=
  let lv2 := locals_at_metrics it lv (at_check it t) in
  let t2 := task_at_metrics front it lv t in
  after_interference (before_test it)
    (if metrics_due lv2 t2 then after_metrics lv2 t2 else t2).

(** *** Callbacks, schedules and traces *)

(** Every callback the task has seen so far: those already invoked, those
    pending and those still waiting in the filled queue, oldest first. *)
Definition ledger (t : Task) : list CommitCallback :=
  invoked (trace t) ++ commit_callbacks_ t ++ cbs_of (filled_buffer_queue_ t).

(** The entries that reach the filled queue during one pass of the loop. *)
Definition enqueued_in (it : Iteration) : list SerializedLogs :=
  enqueued (at_wait it) ++ enqueued (before_test it).

(** Whether Terminate clears [run_task_] during the pass. *)
Definition stops (it : Iteration) : bool :=
  terminate (at_wait it) || terminate (before_test it).

(** A schedule in which Terminate clears [run_task_] during the last pass
    and not before: the loop runs through all of it and then exits. *)
Fixpoint ends_at_terminate (sched : list Iteration) : bool :=
  match sched with
  | [] => false
  | it :: sched' =>
      match sched' with
      | [] => stops it
      | _ :: _ => negb (stops it) && ends_at_terminate sched'
      end
  end.

(** Every entry that is ever put on the filled queue during the life of
    the thread, in the order of arrival. *)
Definition all_enqueued (s : Schedule) : list SerializedLogs :=
  concat (map enqueued_in (iterations s)) ++ enqueued (at_exit s).

(** The task an outcome carries, whichever way the computation went. *)
Definition final_task {A : Type} (o : Outcome A) : Task :=
  match o with
  | Done _ t => t
  | Abort _ t => t
  | Running t => t
  end.

(** The events a computation adds to the trace of [t]. *)
Definition new_events {A : Type} (m : M A) (t : Task) : list Event :=
  skipn (length (trace t)) (trace (final_task (m t))).


(** What an event of the loop does to the lock, [None] when the event
    cannot happen in that state of the lock: Persist, the callbacks and the
    clear need the lock, the broadcast and the flushes come without it. *)
Definition lock_step (held : bool) (e : Event) : option bool :=
  match e with
  | EvLock => if held then None else Some true
  | EvUnlock => if held then Some false else None
  | EvWaitFor | EvPersist _ | EvCallback _ | EvClear =>
      if held then Some true else None
  | EvNotifyPersistCv | EvFlushBuffer _ _ | EvRecordConsumerData _ _ _ _ =>
      if held then None else Some false
  | EvNotifyWriterCv | EvYield => Some held
  end.

Fixpoint lock_walk (held : bool) (tr : list Event) : option bool :=
  match tr with
  | [] => Some held
  | e :: tr' =>
      match lock_step held e with
      | Some held' => lock_walk held' tr'
      | None => None
      end
  end.

(** The callbacks handed to the task during its life, in the order in
    which the consumer meets them: those pending at the start, those of the
    entries in the filled queue at the start, those of the entries enqueued
    later. *)
Definition attached (s : Schedule) (t : Task) : list CommitCallback :=
  commit_callbacks_ t ++ cbs_of (filled_buffer_queue_ t ++ all_enqueued s).

Definition callback_eq_dec (x y : CommitCallback) : {x = y} + {x <> y}.
Proof. decide equality; apply Nat.eq_dec. Defined.

(** The events of one pass of the loop. *)
Definition pass_events (front : BufferedLogWriter) (it : Iteration)
                       (lv : Locals) (t : Task) : list Event :=
  [EvLock; EvWaitFor; EvUnlock]
  ++ flush_events (filled_buffer_queue_ t ++ enqueued (at_wait it))
  ++ (if persist_due (now_check it) lv (at_check it t)
      then EvLock :: persist_events front (commit_callbacks_ (at_check it t))
                  ++ [EvUnlock; EvNotifyPersistCv]
      else [])
  ++ (if metrics_due (locals_at_metrics it lv (at_check it t))
                     (task_at_metrics front it lv t)
      then [EvRecordConsumerData
              (write_us (locals_at_metrics it lv (at_check it t)))
              (persist_us (locals_at_metrics it lv (at_check it t)))
              (num_bytes (locals_at_metrics it lv (at_check it t)))
              (num_buffers (locals_at_metrics it lv (at_check it t)))]
      else []).



(** *** The run as a whole, the log file and the metrics *)

(** The locals and the task after the passes of [sched], one after the
    other. *)
Fixpoint run_passes (front : BufferedLogWriter) (sched : list Iteration)
                    (lv : Locals) (t : Task) : Locals * Task :=
  match sched with
  | [] => (lv, t)
  | it :: sched' =>
      run_passes front sched' (locals_after_body front it lv t)
                              (task_after_body front it lv t)
  end.

(** The locals with which the loop is entered. *)
Definition locals_at_entry (s : Schedule) : Locals :=
  {| write_us := 0; persist_us := 0; num_bytes := 0; num_buffers := 0;
     last_persist := start_time s |}.

(** The task with which the loop is entered. *)
Definition task_at_entry (t : Task) : Task :=
  set_current_data_written 0 (set_run_task true t).

(** The task when the loop has been left. *)
Definition task_at_exit (front : BufferedLogWriter) (s : Schedule) (t : Task) : Task :=
  snd (run_passes front (iterations s) (locals_at_entry s) (task_at_entry t)).


(** The events of the passes of [sched], one after the other. *)
Fixpoint loop_events (front : BufferedLogWriter) (sched : list Iteration)
                     (lv : Locals) (t : Task) : list Event :=
  match sched with
  | [] => []
  | it :: sched' =>
      pass_events front it lv t
      ++ loop_events front sched' (locals_after_body front it lv t)
                                  (task_after_body front it lv t)
  end.

(** The buffers flushed in a trace with the byte counts FlushBuffer
    returned, in the order of the flushes. *)
Fixpoint flushed (tr : list Event) : list (BufferedLogWriter * Z) :=
  match tr with
  | [] => []
  | EvFlushBuffer b bytes :: tr' => (b, bytes) :: flushed tr'
  | _ :: tr' => flushed tr'
  end.



(** Where the transactions of the log stand: the entries that have not been
    flushed yet, the callbacks whose entry has been flushed but not yet
    covered by a Persist, and the callbacks covered by a Persist that have
    not been invoked yet. *)
Record Durability : Type := {
  unflushed : list SerializedLogs;
  unsynced : list CommitCallback;
  synced : list CommitCallback
}.

Definition writer_eqb (a b : BufferedLogWriter) : bool :=
  Nat.eqb (out_ a) (out_ b) && Z.eqb (buffer_size_ a) (buffer_size_ b).

(** What an event does to the standing of the transactions, [None] when
    the event breaks the commit contract: a flush must take the oldest
    unflushed entry, with all its bytes; a Persist covers every callback
    whose entry has been flushed; a callback may only be invoked when it is
    the oldest one covered by a Persist; the clear may drop nothing that
    has not been invoked. *)
Definition durable_step (d : Durability) (e : Event) : option Durability :=
  match e with
  | EvFlushBuffer b bytes =>
      match unflushed d with
      | entry :: later =>
          if writer_eqb b (fst entry) && Z.eqb bytes (buffer_size_ (fst entry))
          then Some {| unflushed := later;
                       unsynced := unsynced d ++ snd entry;
                       synced := synced d |}
          else None
      | [] => None
      end
  | EvPersist _ =>
      Some {| unflushed := unflushed d; unsynced := [];
              synced := synced d ++ unsynced d |}
  | EvCallback c =>
      match synced d with
      | c' :: later =>
          if callback_eq_dec c c'
          then Some {| unflushed := unflushed d; unsynced := unsynced d;
                       synced := later |}
          else None
      | [] => None
      end
  | EvClear =>
      match synced d, unsynced d with
      | [], [] => Some d
      | _, _ => None
      end
  | _ => Some d
  end.

Fixpoint durable_walk (d : Durability) (tr : list Event) : option Durability :=
  match tr with
  | [] => Some d
  | e :: tr' =>
      match durable_step d e with
      | Some d' => durable_walk d' tr'
      | None => None
      end
  end.


(** The byte counts of the flushes of a trace that no later Persist of the
    trace covers, after those in [acc]. *)
Fixpoint unpersisted_from (acc : list Z) (tr : list Event) : list Z :=
  match tr with
  | [] => acc
  | EvFlushBuffer _ bytes :: tr' => unpersisted_from (acc ++ [bytes]) tr'
  | EvPersist _ :: tr' => unpersisted_from [] tr'
  | _ :: tr' => unpersisted_from acc tr'
  end.

(** ** A concrete run *)

Definition writer0 : BufferedLogWriter := {| out_ := 3%nat; buffer_size_ := 0 |}.

(** A task that has not been started: two buffers, both in the empty
    queue, a persist interval of 10 ms and a threshold of 1 MiB. *)
Definition sample_task : Task :=
  {| run_task_ := false; do_persist_ := false; current_data_written_ := 0;
     commit_callbacks_ := []; filled_buffer_queue_ := [];
     empty_buffer_queue_ := [writer0; writer0];
     buffers_ := [writer0; writer0]; persist_interval_ := 10;
     persist_threshold_ := 1048576; metrics_store_ := None; trace := [] |}.

Definition quiet : Interference :=
  {| enqueued := []; taken := 0%nat; force_flush := false; terminate := false |}.

Definition one_write : Interference :=
  {| enqueued := [({| out_ := 3%nat; buffer_size_ := 100 |},
                   [(1%nat, 7%nat); (1%nat, 8%nat)])];
     taken := 1%nat; force_flush := false; terminate := false |}.

Definition write_and_stop : Interference :=
  {| enqueued := [({| out_ := 3%nat; buffer_size_ := 40 |}, [(2%nat, 9%nat)])];
     taken := 1%nat; force_flush := false; terminate := true |}.

Definition late_write : Interference :=
  {| enqueued := [({| out_ := 3%nat; buffer_size_ := 8 |}, [(2%nat, 10%nat)])];
     taken := 1%nat; force_flush := false; terminate := false |}.

(** The first pass checks the clock 10.5 ms after the start. *)
Definition pass1 : Iteration :=
  {| at_wait := one_write; write_elapsed := 12; now_check := 10500000;
     now_persist := 10600000; persist_elapsed := 30; before_test := quiet |}.

Definition pass2 : Iteration :=
  {| at_wait := write_and_stop; write_elapsed := 5; now_check := 10900000;
     now_persist := 10950000; persist_elapsed := 20; before_test := quiet |}.

Definition sample_schedule : Schedule :=
  {| start_time := 0; iterations := [pass1; pass2]; at_exit := late_write |}.

Definition locals_at_start : Locals :=
  {| write_us := 0; persist_us := 0; num_bytes := 0; num_buffers := 0;
     last_persist := 0 |}.

Definition sample_trace : list Event :=
  Eval vm_compute in trace (final_task (RunTask sample_schedule sample_task)).

(** The task the first pass of the sample run leaves. *)
Definition task_after_pass1 : Task :=
  final_task (LoopBody pass1 locals_at_start (set_run_task true sample_task)).







(** A schedule that ends while the thread is in its loop. *)
Definition open_schedule : Schedule :=
  {| start_time := 0; iterations := [pass1]; at_exit := quiet |}.

(** ** Equations for the two procedures *)

Lemma WriteOneBuffer_eq :
  forall (logs : SerializedLogs) buf cbs q r d w cb e b pi pt ms tr,
    WriteOneBuffer logs
      {| run_task_ := r; do_persist_ := d; current_data_written_ := w;
         commit_callbacks_ := cb; filled_buffer_queue_ := (buf, cbs) :: q;
         empty_buffer_queue_ := e; buffers_ := b; persist_interval_ := pi;
         persist_threshold_ := pt; metrics_store_ := ms; trace := tr |}
    = Done (snd (FlushBuffer buf), cbs)
      {| run_task_ := r; do_persist_ := d;
         current_data_written_ := wrap64 (w + fst (FlushBuffer buf));
         commit_callbacks_ := cb ++ cbs; filled_buffer_queue_ := q;
         empty_buffer_queue_ := e ++ [snd (FlushBuffer buf)]; buffers_ := b;
         persist_interval_ := pi; persist_threshold_ := pt;
         metrics_store_ := ms;
         trace := tr ++ [EvFlushBuffer buf (fst (FlushBuffer buf))] |}.
Proof. reflexivity. Qed.

Lemma WriteBuffersLoop_step (fuel : nat) (logs : SerializedLogs) (t : Task) :
  WriteBuffersLoop (S fuel) logs t
  = match filled_buffer_queue_ t with
    | [] => Done tt t
    | _ :: _ => bind (WriteOneBuffer logs) (WriteBuffersLoop fuel) t
    end.
Proof. destruct t as [r d w cb [|x q] e b pi pt ms tr]; reflexivity. Qed.

Lemma WriteBuffersLoop_eq :
  forall (q : list SerializedLogs) (fuel : nat) (logs : SerializedLogs)
         r d w cb e b pi pt ms tr,
    (length q <= fuel)%nat ->
    WriteBuffersLoop fuel logs
      {| run_task_ := r; do_persist_ := d; current_data_written_ := w;
         commit_callbacks_ := cb; filled_buffer_queue_ := q;
         empty_buffer_queue_ := e; buffers_ := b; persist_interval_ := pi;
         persist_threshold_ := pt; metrics_store_ := ms; trace := tr |}
    = Done tt
      {| run_task_ := r; do_persist_ := d;
         current_data_written_ := add_written w (flushed_bytes q);
         commit_callbacks_ := cb ++ cbs_of q; filled_buffer_queue_ := [];
         empty_buffer_queue_ := e ++ flushed_buffers q; buffers_ := b;
         persist_interval_ := pi; persist_threshold_ := pt;
         metrics_store_ := ms; trace := tr ++ flush_events q |}.
Proof.
  induction q as [|[buf cbs] q IH]; intros fuel logs r d w cb e b pi pt ms tr Hfuel.
  - destruct fuel; cbn; rewrite !app_nil_r; reflexivity.
  - destruct fuel as [|fuel]; [cbn in Hfuel; lia|].
    cbn [length] in Hfuel.
    rewrite WriteBuffersLoop_step. cbn [filled_buffer_queue_].
    unfold bind at 1. rewrite WriteOneBuffer_eq. rewrite IH by lia.
    unfold cbs_of, flushed_bytes, flushed_buffers, flush_events, add_written.
    cbn [map concat fold_left fst snd]. rewrite <- !app_assoc. reflexivity.
Qed.

Lemma WriteBuffersToLogFile_eq (t : Task) :
  WriteBuffersToLogFile t = Done tt (after_drain t).
Proof.
  destruct t as [r d w cb q e b pi pt ms tr].
  unfold WriteBuffersToLogFile, bind, get, after_drain. cbn [filled_buffer_queue_].
  apply WriteBuffersLoop_eq. lia.
Qed.

Lemma run_callbacks_eq (cbs : list CommitCallback) (t : Task) :
  run_callbacks cbs t = Done tt (set_trace (trace t ++ map EvCallback cbs) t).
Proof.
  revert t. induction cbs as [|c cbs IH]; intros [r d w cb q e b pi pt ms tr].
  - cbn. rewrite app_nil_r. reflexivity.
  - cbn. unfold bind, emit, modify. rewrite IH. cbn.
    rewrite <- app_assoc. reflexivity.
Qed.

Lemma PersistLogFile_eq (front : BufferedLogWriter) (rest : list BufferedLogWriter)
                        (t : Task) :
  buffers_ t = front :: rest ->
  PersistLogFile t
  = Done (Z.of_nat (length (commit_callbacks_ t))) (after_persist front t).
Proof.
  destruct t as [r d w cb q e b pi pt ms tr]. cbn [buffers_]. intros ->.
  unfold PersistLogFile, bind, get, TERRIER_ASSERT, emit, modify.
  cbn -[wrap64]. rewrite run_callbacks_eq. cbn -[wrap64].
  unfold after_persist, persist_events. cbn -[wrap64].
  rewrite <- !app_assoc. reflexivity.
Qed.

Lemma PersistLogFile_empty (t : Task) :
  buffers_ t = [] -> PersistLogFile t = Abort AssertionFailed t.
Proof.
  destruct t as [r d w cb q e b pi pt ms tr]. cbn [buffers_]. intros ->.
  reflexivity.
Qed.

(** ** Equations for the phases of the loop body *)

Lemma interfere_eq (i : Interference) (t : Task) :
  interfere i t = Done tt (after_interference i t).
Proof. reflexivity. Qed.

Lemma WaitForWork_eq (it : Iteration) (t : Task) :
  WaitForWork it t = Done tt (after_wait it t).
Proof.
  destruct t as [r d w cb q e b pi pt ms tr].
  unfold WaitForWork, after_wait, after_interference, interfere, bind, emit, modify.
  cbn. rewrite <- !app_assoc. reflexivity.
Qed.

Lemma PersistInLoop_eq (it : Iteration) (front : BufferedLogWriter)
                       (rest : list BufferedLogWriter) (t : Task) :
  buffers_ t = front :: rest ->
  PersistInLoop it t
  = Done (persist_elapsed it,
          Z.of_nat (length (commit_callbacks_ t)),
          current_data_written_ t, now_persist it)
         (after_loop_persist front t).
Proof.
  intros Hb. unfold PersistInLoop.
  unfold bind at 1. unfold emit at 1, modify at 1.
  unfold bind at 1.
  rewrite (PersistLogFile_eq front rest) by exact Hb.
  destruct t as [r d w cb q e b pi pt ms tr].
  unfold after_loop_persist, after_persist. cbn -[wrap64 persist_events].
  rewrite <- !app_assoc. reflexivity.
Qed.


Lemma SubmitMetrics_eq (lv : Locals) (t : Task) :
  SubmitMetrics lv t
  = if metrics_due lv t then Done (zero_counters lv) (after_metrics lv t)
    else Done lv t.
Proof.
  unfold SubmitMetrics, metrics_due.
  destruct (num_bytes lv >? 0); [|reflexivity].
  destruct t as [r d w cb q e b pi pt [s|] tr]; [|reflexivity].
  cbn. destruct (enabled_ s LOGGING); reflexivity.
Qed.

Lemma FinalDrainAndPersist_eq (front : BufferedLogWriter)
                              (rest : list BufferedLogWriter) (t : Task) :
  buffers_ t = front :: rest ->
  FinalDrainAndPersist t = Done tt (after_persist front (after_drain t)).
Proof.
  intros Hb. unfold FinalDrainAndPersist.
  unfold bind at 1. rewrite WriteBuffersToLogFile_eq.
  unfold bind. rewrite (PersistLogFile_eq front rest) by exact Hb.
  reflexivity.
Qed.

Lemma buffers_at_check (it : Iteration) (t : Task) :
  buffers_ (at_check it t) = buffers_ t.
Proof. reflexivity. Qed.

Lemma body_tail_eq (i : Interference) (lv2 : Locals) (t2 : Task) :
  (lv' <- SubmitMetrics lv2 ;; interfere i ;; ret lv') t2
  = Done (if metrics_due lv2 t2 then zero_counters lv2 else lv2)
         (after_interference i
            (if metrics_due lv2 t2 then after_metrics lv2 t2 else t2)).
Proof.
  unfold bind. rewrite SubmitMetrics_eq.
  destruct (metrics_due lv2 t2); reflexivity.
Qed.

Lemma LoopBody_eq (front : BufferedLogWriter) (rest : list BufferedLogWriter)
                  (it : Iteration) (lv : Locals) (t : Task) :
  buffers_ t = front :: rest ->
  LoopBody it lv t
  = Done (locals_after_body front it lv t) (task_after_body front it lv t).
Proof.
  intros Hb. unfold LoopBody.
  unfold bind at 1. rewrite WaitForWork_eq.
  unfold bind at 1. rewrite WriteBuffersToLogFile_eq.
  fold (at_check it t).
  unfold bind at 1. unfold get at 1.
  unfold locals_after_body, task_after_body, task_at_metrics, locals_at_metrics.
  unfold bind at 1.
  remember (at_check it t) as t1 eqn:Ht1.
  assert (Hb1 : buffers_ t1 = front :: rest) by (subst t1; exact Hb).
  clear Ht1.
  destruct (persist_due (now_check it) lv t1).
  - rewrite (PersistInLoop_eq it front rest) by exact Hb1.
    apply body_tail_eq.
  - unfold ret at 1. apply body_tail_eq.
Qed.

(** ** The ledger of callbacks *)

Arguments cbs_of : simpl never.
Arguments flush_events : simpl never.
Arguments persist_events : simpl never.
Arguments wrap64 : simpl never.

Lemma invoked_app (a b : list Event) : invoked (a ++ b) = invoked a ++ invoked b.
Proof. induction a as [|[] a IH]; cbn; congruence. Qed.

Lemma invoked_callbacks (cbs : list CommitCallback) :
  invoked (map EvCallback cbs) = cbs.
Proof. induction cbs as [|c cbs IH]; simpl; [|rewrite IH]; reflexivity. Qed.

Lemma invoked_flush_events (q : list SerializedLogs) : invoked (flush_events q) = [].
Proof. induction q as [|e q IH]; simpl; [reflexivity|exact IH]. Qed.

Lemma invoked_persist_events (front : BufferedLogWriter) (cbs : list CommitCallback) :
  invoked (persist_events front cbs) = cbs.
Proof.
  unfold persist_events. simpl. rewrite invoked_app, invoked_callbacks.
  simpl. rewrite app_nil_r. reflexivity.
Qed.

Lemma cbs_of_app (a b : list SerializedLogs) : cbs_of (a ++ b) = cbs_of a ++ cbs_of b.
Proof. unfold cbs_of. rewrite map_app, concat_app. reflexivity. Qed.

Lemma ledger_after_interference (i : Interference) (t : Task) :
  ledger (after_interference i t) = ledger t ++ cbs_of (enqueued i).
Proof.
  unfold ledger. cbn. rewrite cbs_of_app, <- ?app_assoc. reflexivity.
Qed.

Lemma ledger_after_wait (it : Iteration) (t : Task) :
  ledger (after_wait it t) = ledger t ++ cbs_of (enqueued (at_wait it)).
Proof.
  unfold ledger. cbn. rewrite invoked_app, cbs_of_app. cbn.
  rewrite ?app_nil_r, <- ?app_assoc. reflexivity.
Qed.

Lemma ledger_after_drain (t : Task) : ledger (after_drain t) = ledger t.
Proof.
  unfold ledger. cbn. rewrite invoked_app, invoked_flush_events.
  rewrite ?app_nil_r, <- ?app_assoc. reflexivity.
Qed.

Lemma ledger_after_persist (front : BufferedLogWriter) (t : Task) :
  ledger (after_persist front t) = ledger t.
Proof.
  unfold ledger. cbn -[persist_events].
  rewrite invoked_app, invoked_persist_events, <- ?app_assoc. reflexivity.
Qed.

Lemma ledger_after_loop_persist (front : BufferedLogWriter) (t : Task) :
  ledger (after_loop_persist front t) = ledger t.
Proof.
  unfold ledger. cbn -[persist_events].
  rewrite invoked_app. cbn -[persist_events].
  rewrite invoked_app, invoked_persist_events. cbn.
  rewrite ?app_nil_r, <- ?app_assoc. reflexivity.
Qed.

Lemma ledger_after_metrics (lv : Locals) (t : Task) :
  ledger (after_metrics lv t) = ledger t.
Proof.
  unfold ledger. cbn. rewrite invoked_app. cbn. rewrite app_nil_r. reflexivity.
Qed.

Lemma ledger_task_at_metrics front it lv t :
  ledger (task_at_metrics front it lv t)
  = ledger t ++ cbs_of (enqueued (at_wait it)).
Proof.
  unfold task_at_metrics, at_check.
  destruct (persist_due _ _ _);
    rewrite ?ledger_after_loop_persist, ledger_after_drain, ledger_after_wait;
    reflexivity.
Qed.

Lemma ledger_task_after_body front it lv t :
  ledger (task_after_body front it lv t) = ledger t ++ cbs_of (enqueued_in it).
Proof.
  unfold task_after_body. rewrite ledger_after_interference.
  destruct (metrics_due _ _);
    rewrite ?ledger_after_metrics, ledger_task_at_metrics;
    unfold enqueued_in; rewrite cbs_of_app, <- app_assoc; reflexivity.
Qed.

Lemma buffers_task_after_body front it lv t :
  buffers_ (task_after_body front it lv t) = buffers_ t.
Proof.
  unfold task_after_body, task_at_metrics.
  destruct (metrics_due _ _); destruct (persist_due _ _ _); reflexivity.
Qed.

Lemma run_task_task_after_body front it lv t :
  run_task_ (task_after_body front it lv t) = run_task_ t && negb (stops it).
Proof.
  unfold task_after_body, task_at_metrics, stops.
  destruct (metrics_due _ _); destruct (persist_due _ _ _); cbn;
    rewrite negb_orb, andb_assoc; reflexivity.
Qed.

(** ** The loop and the whole run *)

Lemma TaskLoop_step (it : Iteration) (sched : list Iteration) (lv : Locals)
                    (t : Task) (front : BufferedLogWriter)
                    (rest : list BufferedLogWriter) :
  buffers_ t = front :: rest ->
  TaskLoop (it :: sched) lv t
  = if run_task_ t && negb (stops it)
    then TaskLoop sched (locals_after_body front it lv t)
                        (task_after_body front it lv t)
    else Done (locals_after_body front it lv t) (task_after_body front it lv t).
Proof.
  intros Hb. cbn [TaskLoop]. unfold bind at 1.
  rewrite (LoopBody_eq front rest) by exact Hb.
  unfold bind, get. rewrite run_task_task_after_body.
  destruct (run_task_ t && negb (stops it)); reflexivity.
Qed.

(** As long as nobody calls Terminate the loop does not return. *)
Lemma TaskLoop_running :
  forall (sched : list Iteration) (lv : Locals) (t : Task)
         (front : BufferedLogWriter) (rest : list BufferedLogWriter),
    buffers_ t = front :: rest ->
    run_task_ t = true ->
    forallb (fun it => negb (stops it)) sched = true ->
    exists t', TaskLoop sched lv t = Running t'.
Proof.
  induction sched as [|it sched IH]; intros lv t front rest Hb Hrun Hall.
  - exists t. reflexivity.
  - cbn [forallb] in Hall. apply andb_true_iff in Hall. destruct Hall as [Hit Hall].
    rewrite (TaskLoop_step it sched lv t front rest Hb), Hrun, Hit. cbn [andb].
    apply (IH _ _ front rest).
    + rewrite buffers_task_after_body. exact Hb.
    + rewrite run_task_task_after_body, Hrun, Hit. reflexivity.
    + exact Hall.
Qed.

Lemma TaskLoop_done :
  forall (sched : list Iteration) (lv : Locals) (t : Task)
         (front : BufferedLogWriter) (rest : list BufferedLogWriter),
    buffers_ t = front :: rest ->
    run_task_ t = true ->
    ends_at_terminate sched = true ->
    exists lv' t' body,
      TaskLoop sched lv t = Done lv' t'
      /\ buffers_ t' = buffers_ t
      /\ run_task_ t' = false
      /\ ledger t' = ledger t ++ cbs_of (concat (map enqueued_in sched))
      /\ trace t' = trace t ++ body.
Proof.
  induction sched as [|it sched IH]; intros lv t front rest Hb Hrun Hend.
  - discriminate.
  - rewrite (TaskLoop_step it sched lv t front rest Hb), Hrun.
    cbn [ends_at_terminate] in Hend. destruct sched as [|it' sched].
    + rewrite Hend. cbn [andb negb].
      exists (locals_after_body front it lv t), (task_after_body front it lv t).
      assert (Htr : exists body,
                 trace (task_after_body front it lv t) = trace t ++ body).
      { unfold task_after_body, task_at_metrics, at_check.
        destruct (metrics_due _ _); destruct (persist_due _ _ _); cbn;
          rewrite <- ?app_assoc; eexists; reflexivity. }
      destruct Htr as [body Htr]. exists body.
      repeat split.
      * apply buffers_task_after_body.
      * rewrite run_task_task_after_body, Hrun, Hend. reflexivity.
      * rewrite ledger_task_after_body. cbn. rewrite app_nil_r. reflexivity.
      * exact Htr.
    + apply andb_true_iff in Hend. destruct Hend as [Hstop Hend].
      rewrite Hstop. cbn [andb].
      destruct (IH (locals_after_body front it lv t)
                   (task_after_body front it lv t) front rest)
        as (lv' & t' & body & Heq & Hbuf & Hrun' & Hled & Htr).
      * rewrite buffers_task_after_body. exact Hb.
      * rewrite run_task_task_after_body, Hrun, Hstop. reflexivity.
      * exact Hend.
      * assert (Htr0 : exists body0,
                   trace (task_after_body front it lv t) = trace t ++ body0).
        { unfold task_after_body, task_at_metrics, at_check.
          destruct (metrics_due _ _); destruct (persist_due _ _ _); cbn;
            rewrite <- ?app_assoc; eexists; reflexivity. }
        destruct Htr0 as [body0 Htr0].
        exists lv', t', (body0 ++ body). repeat split.
        -- exact Heq.
        -- rewrite Hbuf. apply buffers_task_after_body.
        -- exact Hrun'.
        -- rewrite Hled, ledger_task_after_body.
           change (map enqueued_in (it :: it' :: sched))
             with (enqueued_in it :: map enqueued_in (it' :: sched)).
           cbn [concat]. rewrite cbs_of_app, <- app_assoc. reflexivity.
        -- rewrite Htr, Htr0, <- app_assoc. reflexivity.
Qed.

(** ** Disciplines on the trace *)

Section Discipline.

(** A discipline relates a state before a stretch of events to a state
    after it; stretches compose. *)
Variable Q : Type.
Variable G : Q -> list Event -> Q -> Prop.
Hypothesis G_nil : forall q, G q [] q.
Hypothesis G_app :
  forall q1 q2 q3 a b, G q1 a q2 -> G q2 b q3 -> G q1 (a ++ b) q3.

(** [m] only appends to the trace; what it appends leads from [q1] to
    [q2] when [m] returns, and from [q1] to some state otherwise. *)
Definition follows {A : Type} (q1 : Q) (m : M A) (q2 : Q) : Prop :=
  forall t, exists seg,
    trace (final_task (m t)) = trace t ++ seg
    /\ match m t with
       | Done _ _ => G q1 seg q2
       | _ => exists q, G q1 seg q
       end.

Lemma follows_ret {A : Type} (q : Q) (a : A) : follows q (ret a) q.
Proof. intros t. exists []. cbn. rewrite app_nil_r. auto. Qed.

Lemma follows_get (q : Q) : follows q get q.
Proof. intros t. exists []. cbn. rewrite app_nil_r. auto. Qed.

Lemma follows_modify (q : Q) (f : Task -> Task) :
  (forall t, trace (f t) = trace t) -> follows q (modify f) q.
Proof. intros Hf t. exists []. cbn. rewrite Hf, app_nil_r. auto. Qed.

Lemma follows_emit (q1 q2 : Q) (e : Event) :
  G q1 [e] q2 -> follows q1 (emit e) q2.
Proof. intros He t. exists [e]. cbn. auto. Qed.

Lemma follows_bind {A B : Type} (q1 q2 q3 : Q) (m : M A) (k : A -> M B) :
  follows q1 m q2 -> (forall a, follows q2 (k a) q3) ->
  follows q1 (bind m k) q3.
Proof.
  intros Hm Hk t. destruct (Hm t) as (seg & Htr & HG). unfold bind.
  destruct (m t) as [a t1|why t1|t1]; cbn [final_task] in Htr.
  - destruct (Hk a t1) as (seg2 & Htr2 & HG2).
    exists (seg ++ seg2). split.
    + rewrite Htr2, Htr, app_assoc. reflexivity.
    + destruct (k a t1); [eauto | destruct HG2 as [q HG2]; eauto ..].
  - exists seg. split; [exact Htr | exact HG].
  - exists seg. split; [exact Htr | exact HG].
Qed.

Lemma follows_stuck {A : Type} (q : Q) (q' : Q) :
  follows q (fun t => @Running A t) q'.
Proof. intros t. exists []. cbn. rewrite app_nil_r. eauto. Qed.

(** The states of the discipline at which the lock is free or held, and
    what each event of the loop does to them. *)
Variables free held : Q.
Hypothesis G_lock : G free [EvLock] held.
Hypothesis G_wait : G held [EvWaitFor] held.
Hypothesis G_unlock : G held [EvUnlock] free.
Hypothesis G_notify : G free [EvNotifyPersistCv] free.
Hypothesis G_flush : forall q, G free (flush_events q) free.
Hypothesis G_record : forall w p b n, G free [EvRecordConsumerData w p b n] free.
Hypothesis G_persist : forall b cbs, G held (persist_events b cbs) held.

Lemma follows_interfere (q : Q) (i : Interference) : follows q (interfere i) q.
Proof.
  intros t. exists []. rewrite interfere_eq. cbn. rewrite app_nil_r. auto.
Qed.

Lemma follows_WriteBuffersToLogFile : follows free WriteBuffersToLogFile free.
Proof.
  intros t. exists (flush_events (filled_buffer_queue_ t)).
  rewrite WriteBuffersToLogFile_eq. cbn. auto.
Qed.

Lemma follows_PersistLogFile_at (q : Q) :
  (forall b cbs, G q (persist_events b cbs) q) -> follows q PersistLogFile q.
Proof.
  intros Hp t. destruct (buffers_ t) as [|front rest] eqn:Hb.
  - exists []. rewrite PersistLogFile_empty by exact Hb. cbn.
    rewrite app_nil_r. eauto.
  - exists (persist_events front (commit_callbacks_ t)).
    rewrite (PersistLogFile_eq front rest) by exact Hb. cbn. auto.
Qed.

Lemma follows_WaitForWork (it : Iteration) : follows free (WaitForWork it) free.
Proof.
  unfold WaitForWork.
  eapply follows_bind; [apply follows_emit, G_lock | intros _].
  eapply follows_bind; [apply follows_interfere | intros _].
  eapply follows_bind; [apply follows_emit, G_wait | intros _].
  apply follows_emit, G_unlock.
Qed.

Lemma follows_PersistInLoop (it : Iteration) : follows free (PersistInLoop it) free.
Proof.
  unfold PersistInLoop.
  eapply follows_bind; [apply follows_emit, G_lock | intros _].
  eapply follows_bind; [apply follows_PersistLogFile_at, G_persist | intros n].
  eapply follows_bind; [apply follows_get | intros t].
  eapply follows_bind; [apply follows_modify; reflexivity | intros _].
  eapply follows_bind; [apply follows_modify; reflexivity | intros _].
  eapply follows_bind; [apply follows_emit, G_unlock | intros _].
  eapply follows_bind; [apply follows_emit, G_notify | intros _].
  apply follows_ret.
Qed.

Lemma follows_SubmitMetrics (lv : Locals) : follows free (SubmitMetrics lv) free.
Proof.
  intros t. rewrite SubmitMetrics_eq. destruct (metrics_due lv t).
  - eexists. split; [reflexivity | apply G_record].
  - exists []. cbn. rewrite app_nil_r. auto.
Qed.

Lemma follows_LoopBody (it : Iteration) (lv : Locals) :
  follows free (LoopBody it lv) free.
Proof.
  unfold LoopBody.
  eapply follows_bind; [apply follows_WaitForWork | intros _].
  eapply follows_bind; [apply follows_WriteBuffersToLogFile | intros _].
  eapply follows_bind; [apply follows_get | intros t].
  eapply follows_bind.
  - destruct (persist_due (now_check it) lv t);
      [apply follows_PersistInLoop | apply follows_ret].
  - intros [[[elapsed buffers] bytes] last].
    eapply follows_bind; [apply follows_SubmitMetrics | intros lv'].
    eapply follows_bind; [apply follows_interfere | intros _].
    apply follows_ret.
Qed.

Lemma follows_TaskLoop (sched : list Iteration) :
  forall lv, follows free (TaskLoop sched lv) free.
Proof.
  induction sched as [|it sched IH]; intros lv.
  - apply follows_stuck.
  - cbn [TaskLoop].
    eapply follows_bind; [apply follows_LoopBody | intros lv'].
    eapply follows_bind; [apply follows_get | intros t].
    destruct (run_task_ t); [apply IH | apply follows_ret].
Qed.

(** A discipline that does not tell a free lock from a held one is kept
    by the shutdown path as well. *)
Hypothesis G_persist_free : forall b cbs, G free (persist_events b cbs) free.


End Discipline.

(** *** Callbacks are framed by a Persist and a clear *)






(** *** The lock is held around the persists of the loop *)

Lemma lock_walk_app (a b : list Event) :
  forall h1 h2 h3,
    lock_walk h1 a = Some h2 -> lock_walk h2 b = Some h3 ->
    lock_walk h1 (a ++ b) = Some h3.
Proof.
  induction a as [|e a IH]; intros h1 h2 h3 Ha Hb.
  - cbn in Ha. injection Ha as ->. exact Hb.
  - cbn in *. destruct (lock_step h1 e); [eauto | discriminate].
Qed.

Lemma lock_walk_flush_events (q : list SerializedLogs) :
  lock_walk false (flush_events q) = Some false.
Proof. induction q as [|e q IH]; [reflexivity | exact IH]. Qed.

Lemma lock_walk_persist_events (front : BufferedLogWriter)
                               (cbs : list CommitCallback) :
  lock_walk true (persist_events front cbs) = Some true.
Proof.
  unfold persist_events. cbn. induction cbs as [|c cbs IH]; [reflexivity | exact IH].
Qed.

(** The events of the loop keep the lock discipline and leave the lock
    free when the loop is left. *)
Lemma TaskLoop_locked (sched : list Iteration) (lv : Locals) (t : Task) :
  exists seg,
    trace (final_task (TaskLoop sched lv t)) = trace t ++ seg
    /\ match TaskLoop sched lv t with
       | Done _ _ => lock_walk false seg = Some false
       | _ => exists held, lock_walk false seg = Some held
       end.
Proof.
  exact (follows_TaskLoop bool (fun h1 seg h2 => lock_walk h1 seg = Some h2)
           (fun _ => eq_refl) (fun h1 h2 h3 a b => lock_walk_app a b h1 h2 h3)
           false true eq_refl eq_refl eq_refl eq_refl
           lock_walk_flush_events (fun _ _ _ _ => eq_refl)
           lock_walk_persist_events sched lv t).
Qed.

(** ** The run of the thread up to its end *)

Lemma RunTask_returns (s : Schedule) (t : Task) (front : BufferedLogWriter)
                      (rest : list BufferedLogWriter) :
  buffers_ t = front :: rest ->
  ends_at_terminate (iterations s) = true ->
  exists t' body qf cf,
    RunTask s t = Done tt t'
    /\ trace t' = trace t ++ body ++ flush_events qf ++ persist_events front cf
    /\ lock_walk false body = Some false
    /\ filled_buffer_queue_ t' = []
    /\ commit_callbacks_ t' = []
    /\ invoked (body ++ flush_events qf ++ persist_events front cf) = attached s t
    /\ run_task_ t' = false.
Proof.
  intros Hb Hend.
  set (t0 := set_current_data_written 0 (set_run_task true t)).
  set (lv0 := {| write_us := 0; persist_us := 0; num_bytes := 0;
                 num_buffers := 0; last_persist := start_time s |}).
  destruct (TaskLoop_done (iterations s) lv0 t0 front rest Hb eq_refl Hend)
    as (lv & tl & body & Hloop & Hbuf & Hrun & Hled & Htr).
  destruct (TaskLoop_locked (iterations s) lv0 t0) as (body' & Htr' & Hlock).
  rewrite Hloop in Htr', Hlock. cbn [final_task] in Htr'.
  rewrite Htr in Htr'. apply app_inv_head in Htr'. subst body'.
  set (tf := after_persist front (after_drain (after_interference (at_exit s) tl))).
  assert (Hrun_eq : RunTask s t = Done tt tf).
  { unfold RunTask, DiskLogConsumerTaskLoop.
    unfold bind at 1. unfold modify at 1.
    unfold bind at 1. unfold modify at 1.
    fold t0. fold lv0.
    unfold bind at 1. rewrite Hloop.
    unfold bind at 1. rewrite interfere_eq.
    apply (FinalDrainAndPersist_eq front rest).
    change (buffers_ tl = front :: rest). rewrite Hbuf. exact Hb. }
  exists tf, body,
    (filled_buffer_queue_ tl ++ enqueued (at_exit s)),
    (commit_callbacks_ tl
       ++ cbs_of (filled_buffer_queue_ tl ++ enqueued (at_exit s))).
  assert (Htrf : trace tf
                 = trace t ++ body
                   ++ flush_events (filled_buffer_queue_ tl ++ enqueued (at_exit s))
                   ++ persist_events front
                        (commit_callbacks_ tl
                           ++ cbs_of (filled_buffer_queue_ tl ++ enqueued (at_exit s)))).
  { unfold tf. cbn -[persist_events]. rewrite Htr. cbn.
    rewrite <- !app_assoc. reflexivity. }
  repeat split.
  - exact Hrun_eq.
  - exact Htrf.
  - exact Hlock.
  - assert (Hledf : ledger tf = ledger t ++ cbs_of (all_enqueued s)).
    { unfold tf.
      rewrite ledger_after_persist, ledger_after_drain, ledger_after_interference.
      rewrite Hled. unfold all_enqueued. rewrite cbs_of_app, <- app_assoc.
      reflexivity. }
    unfold ledger in Hledf. rewrite Htrf in Hledf.
    change (commit_callbacks_ tf) with (@nil CommitCallback) in Hledf.
    change (filled_buffer_queue_ tf) with (@nil SerializedLogs) in Hledf.
    rewrite invoked_app in Hledf. cbn [app] in Hledf.
    rewrite app_nil_r, <- app_assoc in Hledf.
    apply app_inv_head in Hledf. rewrite Hledf.
    unfold attached. rewrite cbs_of_app, <- app_assoc. reflexivity.
  - change (run_task_ tl && negb (terminate (at_exit s)) = false).
    rewrite Hrun. reflexivity.
Qed.

Lemma invoked_nth :
  forall (seg : list Event) (i : nat) (c : CommitCallback),
    nth_error (invoked seg) i = Some c ->
    exists pre post,
      seg = pre ++ EvCallback c :: post /\ length (invoked pre) = i.
Proof.
  induction seg as [|e seg IH]; intros i c Hnth.
  - destruct i; discriminate.
  - assert (Hskip : invoked (e :: seg) = invoked seg ->
                    exists pre post,
                      e :: seg = pre ++ EvCallback c :: post
                      /\ length (invoked pre) = i).
    { intros Heq. rewrite Heq in Hnth.
      destruct (IH i c Hnth) as (pre & post & -> & Hlen).
      exists (e :: pre), post. split; [reflexivity|].
      rewrite <- Hlen. f_equal.
      change (e :: pre) with ([e] ++ pre). rewrite invoked_app.
      change (e :: pre ++ EvCallback c :: post)
        with ([e] ++ pre ++ EvCallback c :: post) in Heq.
      rewrite invoked_app in Heq.
      destruct (invoked [e]) as [|x l] eqn:He; [reflexivity|].
      exfalso. apply (f_equal (@length _)) in Heq.
      cbn in Heq. rewrite !length_app in Heq. cbn in Heq. lia. }
    destruct e; try (apply Hskip; reflexivity).
    clear Hskip. cbn in Hnth. destruct i as [|i].
    + cbn in Hnth. injection Hnth as ->. exists [], seg. auto.
    + cbn in Hnth. destruct (IH i c Hnth) as (pre & post & -> & Hlen).
      exists (EvCallback c0 :: pre), post. cbn. auto.
Qed.

(** ** The properties of the consumer *)




Lemma add_written_mod (bytes : list Z) :
  forall w, wrap64 (add_written w bytes) = wrap64 (w + fold_right Z.add 0 bytes).
Proof.
  unfold add_written, wrap64.
  induction bytes as [|b bytes IH]; intros w; cbn [fold_left fold_right].
  - rewrite Z.add_0_r. reflexivity.
  - rewrite IH. rewrite Zplus_mod_idemp_l. f_equal. lia.
Qed.

Lemma persisted_flush_events (q : list SerializedLogs) : persisted (flush_events q) = [].
Proof. induction q as [|e q IH]; [reflexivity | exact IH]. Qed.

(** C5. WriteBuffersToLogFile always returns.  It leaves the filled queue
    empty; it has flushed every entry of the queue, in queue order, and
    nothing else; the byte count returned by each FlushBuffer has been
    added to [current_data_written_] (in 64-bit arithmetic), the callbacks
    of the entries have been appended to the pending list in queue order
    and in their own order, the flushed buffers have been appended to the
    empty queue, and Persist has not been called. *)
Theorem WriteBuffersToLogFile_drains :
  forall t : Task,
    exists t',
      WriteBuffersToLogFile t = Done tt t'
      /\ filled_buffer_queue_ t' = []
      /\ trace t' = trace t ++ flush_events (filled_buffer_queue_ t)
      /\ current_data_written_ t'
         = fold_left (fun acc b => wrap64 (acc + b))
             (map (fun e => fst (FlushBuffer (fst e))) (filled_buffer_queue_ t))
             (current_data_written_ t)
      /\ wrap64 (current_data_written_ t')
         = wrap64 (current_data_written_ t
                   + fold_right Z.add 0 (flushed_bytes (filled_buffer_queue_ t)))
      /\ commit_callbacks_ t'
         = commit_callbacks_ t ++ concat (map snd (filled_buffer_queue_ t))
      /\ empty_buffer_queue_ t'
         = empty_buffer_queue_ t
           ++ map (fun e => snd (FlushBuffer (fst e))) (filled_buffer_queue_ t)
      /\ persisted (flush_events (filled_buffer_queue_ t)) = []
      /\ buffers_ t' = buffers_ t
      /\ do_persist_ t' = do_persist_ t
      /\ run_task_ t' = run_task_ t.
Proof.
  intros t. exists (after_drain t).
  split; [apply WriteBuffersToLogFile_eq|].
  repeat split.
  - apply add_written_mod.
  - apply persisted_flush_events.
Qed.

(** C6. Under the conditions of C3 the callbacks are invoked in the order
    of the entries in the filled queue and, within an entry, in the order
    of its list: the sequence of invocations is the sequence of attached
    callbacks, and of two attached callbacks the earlier one is invoked
    earlier in the trace. *)
Theorem callbacks_invoked_in_drain_order :
  forall (s : Schedule) (t : Task) (front : BufferedLogWriter)
         (rest : list BufferedLogWriter),
    buffers_ t = front :: rest ->
    ends_at_terminate (iterations s) = true ->
    exists t' seg,
      RunTask s t = Done tt t'
      /\ trace t' = trace t ++ seg
      /\ invoked seg
         = commit_callbacks_ t
           ++ concat (map snd (filled_buffer_queue_ t ++ all_enqueued s))
      /\ (forall (i j : nat) (c1 c2 : CommitCallback),
             (i < j)%nat ->
             nth_error (attached s t) i = Some c1 ->
             nth_error (attached s t) j = Some c2 ->
             exists pre mid post,
               seg = pre ++ EvCallback c1 :: mid ++ EvCallback c2 :: post
               /\ length (invoked pre) = i
               /\ length (invoked (pre ++ EvCallback c1 :: mid)) = j).
Proof.
  intros s t front rest Hb Hend.
  destruct (RunTask_returns s t front rest Hb Hend)
    as (t' & body & qf & cf & Hrun & Htr & _ & _ & _ & Hinv & _).
  exists t', (body ++ flush_events qf ++ persist_events front cf).
  repeat split; try assumption.
  intros i j c1 c2 Hlt H1 H2. rewrite <- Hinv in H1, H2.
  destruct (invoked_nth _ i c1 H1) as (pre & post1 & Hsplit & Hlen).
  rewrite Hsplit in H2. rewrite invoked_app in H2. cbn [invoked] in H2.
  rewrite nth_error_app2 in H2 by lia. rewrite Hlen in H2.
  destruct (j - i)%nat as [|k] eqn:Hk; [lia|]. cbn [nth_error] in H2.
  destruct (invoked_nth _ k c2 H2) as (mid & post & -> & Hlen2).
  exists pre, mid, post. repeat split; try assumption.
  rewrite invoked_app. cbn [invoked]. rewrite length_app. cbn [length]. lia.
Qed.

Lemma persisted_callbacks (cbs : list CommitCallback) (tail : list Event) :
  persisted (map EvCallback cbs ++ tail) = persisted tail.
Proof. induction cbs as [|c cbs IH]; [reflexivity | exact IH]. Qed.

(** C9. PersistLogFile fails its assertion when the buffers vector is
    empty.  Otherwise it returns the length that the pending list had at
    entry, it calls Persist once, on the front buffer and before anything
    else, and it invokes exactly the callbacks that were pending. *)
Theorem PersistLogFile_contract :
  forall t : Task,
    match buffers_ t with
    | [] => PersistLogFile t = Abort AssertionFailed t
    | front :: _ =>
        exists t' seg,
          PersistLogFile t = Done (Z.of_nat (length (commit_callbacks_ t))) t'
          /\ trace t' = trace t ++ EvPersist front :: seg
          /\ persisted (EvPersist front :: seg) = [front]
          /\ invoked seg = commit_callbacks_ t
          /\ Z.of_nat (length (invoked seg))
             = Z.of_nat (length (commit_callbacks_ t))
    end.
Proof.
  intros t. destruct (buffers_ t) as [|front rest] eqn:Hb.
  - apply PersistLogFile_empty. exact Hb.
  - exists (after_persist front t),
           (map EvCallback (commit_callbacks_ t) ++ [EvClear]).
    assert (Hinv : invoked (map EvCallback (commit_callbacks_ t) ++ [EvClear])
                   = commit_callbacks_ t).
    { rewrite invoked_app, invoked_callbacks. apply app_nil_r. }
    repeat split.
    + apply (PersistLogFile_eq front rest). exact Hb.
    + cbn [persisted]. rewrite persisted_callbacks. reflexivity.
    + exact Hinv.
    + rewrite Hinv. reflexivity.
Qed.

(** *** Terminate *)

Lemma SpinUntilRunning_step (yields : list bool) (t : Task) :
  SpinUntilRunning yields t
  = if run_task_ t then Done tt t
    else match yields with
         | [] => Running t
         | started :: yields' =>
             SpinUntilRunning yields'
               (let t1 := set_trace (trace t ++ [EvYield]) t in
                if started then set_run_task true t1 else t1)
         end.
Proof.
  destruct yields as [|[|] yields]; cbn; unfold bind, get;
    destruct (run_task_ t); reflexivity.
Qed.

Lemma set_trace_twice (a b : list Event) (t : Task) :
  set_trace b (set_trace a t) = set_trace b t.
Proof. reflexivity. Qed.

Lemma SpinUntilRunning_started (k : nat) (rest : list bool) :
  forall t,
    run_task_ t = false ->
    SpinUntilRunning (repeat false k ++ true :: rest) t
    = Done tt (set_run_task true (set_trace (trace t ++ repeat EvYield (S k)) t)).
Proof.
  induction k as [|k IH]; intros t Hrun.
  - cbn [repeat app]. rewrite SpinUntilRunning_step, Hrun.
    rewrite SpinUntilRunning_step. reflexivity.
  - cbn [repeat app]. rewrite SpinUntilRunning_step, Hrun.
    cbv zeta. rewrite IH by exact Hrun.
    cbn [trace set_trace]. rewrite set_trace_twice, <- app_assoc. reflexivity.
Qed.

Lemma SpinUntilRunning_never (k : nat) :
  forall t,
    run_task_ t = false ->
    SpinUntilRunning (repeat false k) t
    = Running (set_trace (trace t ++ repeat EvYield k) t).
Proof.
  induction k as [|k IH]; intros t Hrun.
  - cbn [repeat]. rewrite SpinUntilRunning_step, Hrun, app_nil_r.
    destruct t; reflexivity.
  - cbn [repeat]. rewrite SpinUntilRunning_step, Hrun.
    cbv zeta. rewrite IH by exact Hrun.
    cbn [trace set_trace]. rewrite set_trace_twice, <- app_assoc. reflexivity.
Qed.

(** C7. Let Terminate be called while [run_task_] is false.  If the thread
    of the task executes the first statement of RunTask during the
    [k+1]-th yield, Terminate returns after exactly [k+1] yields, with
    [run_task_] false and the writer condition variable signalled once.
    If RunTask has not started within [k] yields, Terminate is still
    spinning after [k] yields, whatever [k] is.  Called when [run_task_] is
    already true, Terminate returns without yielding. *)
Theorem Terminate_waits_for_RunTask :
  forall (t : Task) (k : nat) (rest : list bool),
    run_task_ t = false ->
    Terminate (repeat false k ++ true :: rest) t
    = Done tt (set_run_task false
                 (set_trace (trace t ++ repeat EvYield (S k) ++ [EvNotifyWriterCv]) t))
    /\ Terminate (repeat false k) t
       = Running (set_trace (trace t ++ repeat EvYield k) t)
    /\ Terminate rest (set_run_task true t)
       = Done tt (set_run_task false
                    (set_trace (trace t ++ [EvNotifyWriterCv]) t)).
Proof.
  intros t k rest Hrun. unfold Terminate. repeat split.
  - unfold bind at 1. rewrite SpinUntilRunning_started by exact Hrun.
    unfold bind, get, TERRIER_ASSERT, emit, modify. cbn -[repeat].
    rewrite <- app_assoc. reflexivity.
  - unfold bind at 1. rewrite SpinUntilRunning_never by exact Hrun. reflexivity.
  - unfold bind at 1. rewrite SpinUntilRunning_step. reflexivity.
Qed.

(** *** Metrics *)

(** C8. The lines that submit the metrics always return: they never
    dereference a null metrics store, although dereferencing one aborts.
    They record the consumer data exactly when [num_bytes] is positive, the
    store is not null and the LOGGING component is enabled, and then the
    four accumulators are zero afterwards; otherwise nothing is recorded
    and the accumulators keep their values. *)
Theorem metrics_only_when_enabled :
  forall (lv : Locals) (t : Task),
    exists lv' t' seg,
      SubmitMetrics lv t = Done lv' t'
      /\ trace t' = trace t ++ seg
      /\ (num_bytes lv > 0
          /\ (exists store, metrics_store_ t = Some store
                            /\ enabled_ store LOGGING = true) ->
          seg = [EvRecordConsumerData (write_us lv) (persist_us lv)
                                      (num_bytes lv) (num_buffers lv)]
          /\ write_us lv' = 0 /\ persist_us lv' = 0
          /\ num_bytes lv' = 0 /\ num_buffers lv' = 0)
      /\ (~ (num_bytes lv > 0
             /\ (exists store, metrics_store_ t = Some store
                               /\ enabled_ store LOGGING = true)) ->
          seg = [] /\ lv' = lv)
      /\ (metrics_store_ t = None ->
          ComponentEnabled LOGGING t = Abort NullDereference t
          /\ seg = [] /\ lv' = lv).
Proof.
  intros lv t. rewrite SubmitMetrics_eq.
  assert (Hdue : metrics_due lv t = true <->
                 num_bytes lv > 0
                 /\ (exists store, metrics_store_ t = Some store
                                   /\ enabled_ store LOGGING = true)).
  { unfold metrics_due. rewrite andb_true_iff, Z.gtb_gt.
    destruct (metrics_store_ t) as [store|].
    - split.
      + intros [Hb He]. split; [exact Hb | exists store; auto].
      + intros [Hb (store' & Heq & He)]. injection Heq as ->. auto.
    - split.
      + intros [_ Hf]. discriminate.
      + intros [_ (store' & Heq & _)]. discriminate. }
  assert (Hnull : metrics_store_ t = None ->
                  ComponentEnabled LOGGING t = Abort NullDereference t).
  { intros Hn. unfold ComponentEnabled, bind, deref_metrics_store.
    rewrite Hn. reflexivity. }
  destruct (metrics_due lv t) eqn:Hd.
  - exists (zero_counters lv), (after_metrics lv t),
           [EvRecordConsumerData (write_us lv) (persist_us lv)
                                 (num_bytes lv) (num_buffers lv)].
    split; [reflexivity|]. split; [reflexivity|].
    split; [intros _; repeat split|].
    split; [intros Hnot; exfalso; apply Hnot, Hdue; reflexivity|].
    intros Hn. exfalso. destruct Hdue as [Hdue _].
    destruct (Hdue eq_refl) as [_ (store & Heq & _)]. congruence.
  - exists lv, t, []. rewrite app_nil_r.
    split; [reflexivity|]. split; [reflexivity|].
    split; [intros Hyes; apply Hdue in Hyes; discriminate|].
    split; [intros _; split; reflexivity|].
    intros Hn. split; [apply Hnull, Hn | split; reflexivity].
Qed.

(** *** The persist of the loop and the persist of the shutdown path *)

Lemma persisted_app (a b : list Event) :
  persisted (a ++ b) = persisted a ++ persisted b.
Proof. induction a as [|[] a IH]; cbn; rewrite ?IH; reflexivity. Qed.

Lemma persisted_persist_events (front : BufferedLogWriter) (cbs : list CommitCallback) :
  persisted (persist_events front cbs) = [front].
Proof.
  unfold persist_events. cbn [persisted]. rewrite persisted_callbacks. reflexivity.
Qed.

(** Neither the lock nor the broadcast occurs among the events of a drain
    followed by a PersistLogFile. *)
Lemma drain_persist_events_plain (q : list SerializedLogs)
                                 (front : BufferedLogWriter)
                                 (cbs : list CommitCallback) :
  Forall (fun e => e <> EvLock /\ e <> EvUnlock /\ e <> EvNotifyPersistCv)
         (flush_events q ++ persist_events front cbs).
Proof.
  apply Forall_app. split.
  - unfold flush_events. apply Forall_map, Forall_forall.
    intros e _. repeat split; discriminate.
  - unfold persist_events. constructor; [repeat split; discriminate|].
    apply Forall_app. split.
    + apply Forall_map, Forall_forall. intros c _. repeat split; discriminate.
    + constructor; [repeat split; discriminate | constructor].
Qed.

(** C10. With a buffers vector that is not empty: the persist of the loop
    body takes the lock, calls PersistLogFile, resets
    [current_data_written_] and [do_persist_], releases the lock and
    broadcasts on [persist_cv_], and hands back the number of callbacks,
    the bytes written and the new [last_persist]; the two calls after the
    loop flush and
    persist without lock, unlock or broadcast and leave [do_persist_] and
    [current_data_written_] as the drain left them; and in a run that ends
    by Terminate every Persist of the loop happens under the lock, the lock
    is free when the final Persist is called, and the final drain and
    persist contain neither lock nor broadcast. *)
Theorem shutdown_persist_is_unlocked_and_silent :
  forall (s : Schedule) (it : Iteration) (t : Task)
         (front : BufferedLogWriter) (rest : list BufferedLogWriter),
    buffers_ t = front :: rest ->
    ends_at_terminate (iterations s) = true ->
    (exists t1,
        PersistInLoop it t
        = Done (persist_elapsed it, Z.of_nat (length (commit_callbacks_ t)),
                current_data_written_ t, now_persist it) t1
        /\ trace t1 = trace t ++ EvLock :: persist_events front (commit_callbacks_ t)
                              ++ [EvUnlock; EvNotifyPersistCv]
        /\ current_data_written_ t1 = 0
        /\ do_persist_ t1 = false)
    /\ (exists t2,
           FinalDrainAndPersist t = Done tt t2
           /\ trace t2 = trace t ++ flush_events (filled_buffer_queue_ t)
                                 ++ persist_events front
                                      (commit_callbacks_ t
                                         ++ cbs_of (filled_buffer_queue_ t))
           /\ current_data_written_ t2
              = add_written (current_data_written_ t)
                            (flushed_bytes (filled_buffer_queue_ t))
           /\ do_persist_ t2 = do_persist_ t)
    /\ (exists t' body qf cf,
           RunTask s t = Done tt t'
           /\ trace t' = trace t ++ body ++ flush_events qf ++ persist_events front cf
           /\ lock_walk false body = Some false
           /\ lock_walk false (body ++ flush_events qf) = Some false
           /\ Forall (fun e => e <> EvLock /\ e <> EvUnlock
                               /\ e <> EvNotifyPersistCv)
                     (flush_events qf ++ persist_events front cf)).
Proof.
  intros s it t front rest Hb Hend. split; [|split].
  - exists (after_loop_persist front t).
    split; [apply (PersistInLoop_eq it front rest); exact Hb|].
    repeat split.
  - exists (after_persist front (after_drain t)).
    split; [apply (FinalDrainAndPersist_eq front rest); exact Hb|].
    split; [|split; reflexivity].
    cbn -[persist_events]. rewrite <- app_assoc. reflexivity.
  - destruct (RunTask_returns s t front rest Hb Hend)
      as (t' & body & qf & cf & Hrun & Htr & Hlock & _).
    exists t', body, qf, cf. repeat split; try assumption.
    + apply (lock_walk_app body (flush_events qf) false false false Hlock).
      apply lock_walk_flush_events.
    + apply drain_persist_events_plain.
Qed.

(** *** The decision to persist *)

Lemma skipn_length_app {A : Type} (l seg : list A) :
  skipn (length l) (l ++ seg) = seg.
Proof. induction l as [|x l IH]; [reflexivity | exact IH]. Qed.

Lemma trace_task_after_body front it lv t :
  trace (task_after_body front it lv t) = trace t ++ pass_events front it lv t.
Proof.
  unfold task_after_body, pass_events, task_at_metrics.
  destruct (persist_due (now_check it) lv (at_check it t)).
  - destruct (metrics_due _ _); cbn -[persist_events];
      rewrite <- ?app_assoc; cbn -[persist_events];
      rewrite <- ?app_assoc; rewrite ?app_nil_r; reflexivity.
  - destruct (metrics_due _ _); cbn -[persist_events];
      rewrite <- ?app_assoc; rewrite ?app_nil_r; reflexivity.
Qed.


(** The comparison of the code holds from [persist_interval_ + 1] whole
    milliseconds on. *)
Lemma timeout_from_next_millisecond (elapsed interval : Z) :
  0 <= elapsed ->
  (duration_cast_ms elapsed > interval <-> elapsed >= (interval + 1) * 1000000).
Proof.
  intros Hpos. unfold duration_cast_ms.
  rewrite Z.quot_div_nonneg by lia.
  pose proof (Z.div_mod elapsed 1000000 ltac:(lia)) as Hdm.
  pose proof (Z.mod_pos_bound elapsed 1000000 ltac:(lia)) as Hm.
  split; intros H; nia.
Qed.

(** On a whole number of milliseconds the comparison of the code and the
    comparison of the spec agree. *)
Lemma timeout_on_whole_milliseconds (ms interval : Z) :
  duration_cast_ms (ms * 1000000) > interval <-> ms * 1000000 > interval * 1000000.
Proof.
  unfold duration_cast_ms. rewrite Z.quot_mul by lia. lia.
Qed.


(** ** The properties on the concrete run *)

Example sample_run_trace :
  sample_trace
  = [EvLock; EvWaitFor; EvUnlock;
     EvFlushBuffer {| out_ := 3%nat; buffer_size_ := 100 |} 100;
     EvLock; EvWaitFor; EvUnlock;
     EvFlushBuffer {| out_ := 3%nat; buffer_size_ := 40 |} 40;
     EvLock; EvPersist writer0;
     EvCallback (1%nat, 7%nat); EvCallback (1%nat, 8%nat);
     EvCallback (2%nat, 9%nat); EvClear; EvUnlock; EvNotifyPersistCv;
     EvFlushBuffer {| out_ := 3%nat; buffer_size_ := 8 |} 8;
     EvPersist writer0; EvCallback (2%nat, 10%nat); EvClear].
Proof. reflexivity. Qed.




Lemma callbacks_invoked_in_drain_order_witness :
  buffers_ sample_task = writer0 :: [writer0]
  /\ ends_at_terminate (iterations sample_schedule) = true
  /\ exists t' seg,
       RunTask sample_schedule sample_task = Done tt t'
       /\ trace t' = trace sample_task ++ seg
       /\ invoked seg
          = [(1%nat, 7%nat); (1%nat, 8%nat); (2%nat, 9%nat); (2%nat, 10%nat)].
Proof.
  split; [reflexivity|]. split; [reflexivity|].
  destruct (callbacks_invoked_in_drain_order sample_schedule sample_task
              writer0 [writer0] eq_refl eq_refl)
    as (t' & seg & Hrun & Htr & Hinv & _).
  exists t', seg. split; [exact Hrun|]. split; [exact Htr|].
  rewrite Hinv. reflexivity.
Defined.

Lemma Terminate_waits_for_RunTask_witness :
  run_task_ sample_task = false
  /\ Terminate [false; false; true] sample_task
     = Done tt (set_run_task false
                  (set_trace [EvYield; EvYield; EvYield; EvNotifyWriterCv]
                             sample_task))
  /\ Terminate [false; false] sample_task
     = Running (set_trace [EvYield; EvYield] sample_task).
Proof.
  split; [reflexivity|].
  destruct (Terminate_waits_for_RunTask sample_task 2 [] eq_refl)
    as (Hdone & Hspin & _).
  split; [exact Hdone | exact Hspin].
Defined.

Lemma shutdown_persist_is_unlocked_and_silent_witness :
  buffers_ sample_task = writer0 :: [writer0]
  /\ ends_at_terminate (iterations sample_schedule) = true
  /\ exists t' body qf cf,
       RunTask sample_schedule sample_task = Done tt t'
       /\ trace t' = trace sample_task ++ body ++ flush_events qf
                                       ++ persist_events writer0 cf
       /\ lock_walk false (body ++ flush_events qf) = Some false.
Proof.
  split; [reflexivity|]. split; [reflexivity|].
  destruct (shutdown_persist_is_unlocked_and_silent sample_schedule pass1
              sample_task writer0 [writer0] eq_refl eq_refl)
    as (_ & _ & (t' & body & qf & cf & Hrun & Htr & _ & Hfree & _)).
  exists t', body, qf, cf. auto.
Defined.



(** ** Further properties of the consumer *)




Lemma trace_run_passes front sched :
  forall lv t,
    trace (snd (run_passes front sched lv t))
    = trace t ++ loop_events front sched lv t.
Proof.
  induction sched as [|it sched IH]; intros lv t; cbn [run_passes loop_events].
  - rewrite app_nil_r. reflexivity.
  - rewrite IH, trace_task_after_body, <- app_assoc. reflexivity.
Qed.











Lemma durable_walk_app (a b : list Event) :
  forall d d',
    durable_walk d a = Some d' ->
    durable_walk d (a ++ b) = durable_walk d' b.
Proof.
  induction a as [|e a IH]; intros d d' Ha.
  - cbn in Ha. injection Ha as ->. reflexivity.
  - cbn in *. destruct (durable_step d e); [eauto | discriminate].
Qed.

Lemma writer_eqb_refl (b : BufferedLogWriter) : writer_eqb b b = true.
Proof. unfold writer_eqb. rewrite Nat.eqb_refl, Z.eqb_refl. reflexivity. Qed.

Lemma durable_walk_flush_events (q : list SerializedLogs) :
  forall later u sy,
    durable_walk {| unflushed := q ++ later; unsynced := u; synced := sy |}
                 (flush_events q)
    = Some {| unflushed := later; unsynced := u ++ cbs_of q; synced := sy |}.
Proof.
  unfold flush_events, cbs_of.
  induction q as [|e q IH]; intros later u sy.
  - cbn. rewrite app_nil_r. reflexivity.
  - cbn [map durable_walk durable_step unflushed app unsynced synced concat].
    change (fst (FlushBuffer (fst e))) with (buffer_size_ (fst e)).
    rewrite writer_eqb_refl, Z.eqb_refl. cbn [andb].
    rewrite IH, <- app_assoc. reflexivity.
Qed.

Lemma durable_walk_callbacks (cbs : list CommitCallback) (tail : list Event) :
  forall later u sy,
    durable_walk {| unflushed := later; unsynced := u; synced := cbs ++ sy |}
                 (map EvCallback cbs ++ tail)
    = durable_walk {| unflushed := later; unsynced := u; synced := sy |} tail.
Proof.
  induction cbs as [|c cbs IH]; intros later u sy; [reflexivity|].
  cbn [map app durable_walk durable_step synced unflushed unsynced].
  destruct (callback_eq_dec c c) as [_|Hne]; [apply IH | congruence].
Qed.

Lemma durable_walk_persist_events front (cbs : list CommitCallback) later :
  durable_walk {| unflushed := later; unsynced := cbs; synced := [] |}
               (persist_events front cbs)
  = Some {| unflushed := later; unsynced := []; synced := [] |}.
Proof.
  unfold persist_events.
  cbn [durable_walk durable_step synced unflushed unsynced app].
  rewrite <- (app_nil_r cbs) at 1. rewrite durable_walk_callbacks. reflexivity.
Qed.

Lemma commit_callbacks_task_after_body front it lv t :
  commit_callbacks_ (task_after_body front it lv t)
  = if persist_due (now_check it) lv (at_check it t) then []
    else commit_callbacks_ t
         ++ cbs_of (filled_buffer_queue_ t ++ enqueued (at_wait it)).
Proof.
  unfold task_after_body, task_at_metrics.
  destruct (metrics_due _ _); destruct (persist_due _ _ _); reflexivity.
Qed.

Lemma filled_task_after_body front it lv t :
  filled_buffer_queue_ (task_after_body front it lv t) = enqueued (before_test it).
Proof.
  unfold task_after_body, task_at_metrics.
  destruct (metrics_due _ _); destruct (persist_due _ _ _); reflexivity.
Qed.

Lemma durable_walk_pass front it lv t later :
  durable_walk
    {| unflushed := filled_buffer_queue_ t ++ enqueued (at_wait it) ++ later;
       unsynced := commit_callbacks_ t; synced := [] |}
    (pass_events front it lv t)
  = Some {| unflushed := later;
            unsynced := commit_callbacks_ (task_after_body front it lv t);
            synced := [] |}.
Proof.
  rewrite commit_callbacks_task_after_body. unfold pass_events.
  cbn [app durable_walk durable_step].
  rewrite app_assoc.
  rewrite (durable_walk_app _ _ _ _ (durable_walk_flush_events _ _ _ _)).
  change (commit_callbacks_ (at_check it t))
    with (commit_callbacks_ t
          ++ cbs_of (filled_buffer_queue_ t ++ enqueued (at_wait it))).
  destruct (persist_due _ _ _).
  - cbn [app durable_walk durable_step].
    rewrite <- app_assoc.
    rewrite (durable_walk_app _ _ _ _ (durable_walk_persist_events _ _ _)).
    destruct (metrics_due _ _); reflexivity.
  - destruct (metrics_due _ _); reflexivity.
Qed.

Lemma durable_walk_loop front sched :
  forall lv t later,
    durable_walk
      {| unflushed := filled_buffer_queue_ t
                      ++ concat (map enqueued_in sched) ++ later;
         unsynced := commit_callbacks_ t; synced := [] |}
      (loop_events front sched lv t)
    = Some {| unflushed :=
                filled_buffer_queue_ (snd (run_passes front sched lv t)) ++ later;
              unsynced := commit_callbacks_ (snd (run_passes front sched lv t));
              synced := [] |}.
Proof.
  induction sched as [|it sched IH]; intros lv t later;
    cbn [loop_events run_passes map concat].
  - reflexivity.
  - unfold enqueued_in at 1. rewrite <- !app_assoc.
    rewrite (durable_walk_app _ _ _ _ (durable_walk_pass front it lv t _)).
    rewrite <- (filled_task_after_body front it lv t).
    apply IH.
Qed.












Lemma RunTask_unfold (s : Schedule) (t : Task) :
  RunTask s t
  = match TaskLoop (iterations s) (locals_at_entry s) (task_at_entry t) with
    | Done _ tl => FinalDrainAndPersist (after_interference (at_exit s) tl)
    | Abort why t' => Abort why t'
    | Running t' => Running t'
    end.
Proof.
  unfold RunTask, DiskLogConsumerTaskLoop.
  unfold bind at 1. unfold modify at 1.
  unfold bind at 1. unfold modify at 1.
  fold (task_at_entry t). fold (locals_at_entry s).
  unfold bind at 1.
  destruct (TaskLoop (iterations s) (locals_at_entry s) (task_at_entry t));
    reflexivity.
Qed.









Lemma TaskLoop_running_eq :
  forall (sched : list Iteration) (lv : Locals) (t : Task)
         (front : BufferedLogWriter) (rest : list BufferedLogWriter),
    buffers_ t = front :: rest ->
    run_task_ t = true ->
    forallb (fun it => negb (stops it)) sched = true ->
    TaskLoop sched lv t = Running (snd (run_passes front sched lv t))
    /\ run_task_ (snd (run_passes front sched lv t)) = true.
Proof.
  induction sched as [|it sched IH]; intros lv t front rest Hb Hrun Hall.
  - split; [reflexivity | exact Hrun].
  - cbn [forallb] in Hall. apply andb_true_iff in Hall. destruct Hall as [Hit Hall].
    rewrite (TaskLoop_step it sched lv t front rest Hb), Hrun, Hit.
    cbn [andb run_passes].
    apply (IH _ _ front rest).
    + rewrite buffers_task_after_body. exact Hb.
    + rewrite run_task_task_after_body, Hrun, Hit. reflexivity.
    + exact Hall.
Qed.

(** X7. As long as Terminate is not called the thread stays in its loop,
    and at the end of every pass the pending list holds exactly the
    callbacks of the entries that have been flushed since the last
    Persist, the filled queue holds the entries not yet flushed, and every
    callback covered by a Persist has been invoked. *)
Theorem pending_callbacks_are_the_flushed_unpersisted_ones :
  forall (s : Schedule) (t : Task) (front : BufferedLogWriter)
         (rest : list BufferedLogWriter),
    buffers_ t = front :: rest ->
    forallb (fun it => negb (stops it)) (iterations s) = true ->
    exists t' seg,
      RunTask s t = Running t'
      /\ run_task_ t' = true
      /\ trace t' = trace t ++ seg
      /\ durable_walk
           {| unflushed := filled_buffer_queue_ t
                           ++ concat (map enqueued_in (iterations s));
              unsynced := commit_callbacks_ t; synced := [] |} seg
         = Some {| unflushed := filled_buffer_queue_ t';
                   unsynced := commit_callbacks_ t'; synced := [] |}.
Proof.
  intros s t front rest Hb Hall.
  destruct (TaskLoop_running_eq (iterations s) (locals_at_entry s)
              (task_at_entry t) front rest Hb eq_refl Hall) as [Hloop Hrun].
  exists (task_at_exit front s t),
         (loop_events front (iterations s) (locals_at_entry s) (task_at_entry t)).
  split; [rewrite RunTask_unfold, Hloop; reflexivity|].
  split; [exact Hrun|].
  split; [exact (trace_run_passes front (iterations s) (locals_at_entry s)
                  (task_at_entry t))|].
  pose proof (durable_walk_loop front (iterations s) (locals_at_entry s)
                (task_at_entry t) []) as Hwalk.
  rewrite !app_nil_r in Hwalk. exact Hwalk.
Qed.



Lemma unpersisted_from_app (a b : list Event) :
  forall acc,
    unpersisted_from acc (a ++ b) = unpersisted_from (unpersisted_from acc a) b.
Proof.
  induction a as [|e a IH]; intros acc; [reflexivity|].
  destruct e; cbn [app unpersisted_from]; apply IH.
Qed.

Lemma unpersisted_from_flush_events (q : list SerializedLogs) :
  forall acc, unpersisted_from acc (flush_events q) = acc ++ flushed_bytes q.
Proof.
  unfold flush_events, flushed_bytes.
  induction q as [|e q IH]; intros acc; cbn [map unpersisted_from].
  - rewrite app_nil_r. reflexivity.
  - rewrite IH, <- app_assoc. reflexivity.
Qed.

Lemma unpersisted_from_callbacks (cbs : list CommitCallback) (tail : list Event) :
  forall acc,
    unpersisted_from acc (map EvCallback cbs ++ tail) = unpersisted_from acc tail.
Proof. induction cbs as [|c cbs IH]; intros acc; [reflexivity | apply IH]. Qed.

Lemma unpersisted_from_persist_events front cbs (tail : list Event) (acc : list Z) :
  unpersisted_from acc (persist_events front cbs ++ tail)
  = unpersisted_from [] tail.
Proof.
  unfold persist_events. cbn [app unpersisted_from].
  rewrite <- app_assoc, unpersisted_from_callbacks. reflexivity.
Qed.

Lemma add_written_app (a b : list Z) (w : Z) :
  add_written w (a ++ b) = add_written (add_written w a) b.
Proof. unfold add_written. apply fold_left_app. Qed.

Lemma written_task_after_body front it lv t acc :
  current_data_written_ t = add_written 0 acc ->
  current_data_written_ (task_after_body front it lv t)
  = add_written 0 (unpersisted_from acc (pass_events front it lv t)).
Proof.
  intros Hacc. unfold pass_events, task_after_body, task_at_metrics.
  cbn [app unpersisted_from].
  rewrite unpersisted_from_app, unpersisted_from_flush_events.
  destruct (persist_due (now_check it) lv (at_check it t)).
  - cbn [app unpersisted_from].
    rewrite <- app_assoc, unpersisted_from_persist_events.
    destruct (metrics_due _ _); reflexivity.
  - assert (Hcheck : current_data_written_ (at_check it t)
                     = add_written 0
                         (acc ++ flushed_bytes (filled_buffer_queue_ t
                                                ++ enqueued (at_wait it)))).
    { rewrite add_written_app, <- Hacc. reflexivity. }
    destruct (metrics_due _ _); cbn [app unpersisted_from]; exact Hcheck.
Qed.

Lemma written_run_passes front sched :
  forall lv t acc,
    current_data_written_ t = add_written 0 acc ->
    current_data_written_ (snd (run_passes front sched lv t))
    = add_written 0 (unpersisted_from acc (loop_events front sched lv t)).
Proof.
  induction sched as [|it sched IH]; intros lv t acc Hacc;
    cbn [run_passes loop_events].
  - exact Hacc.
  - rewrite unpersisted_from_app. apply IH.
    apply written_task_after_body. exact Hacc.
Qed.

(** X9. As long as Terminate is not called, at the end of every pass
    [current_data_written_] is the sum, in 64-bit arithmetic, of the bytes
    of the flushes that no later Persist has covered, whatever its value
    was when RunTask was called. *)
Theorem counter_is_the_bytes_flushed_since_the_last_persist :
  forall (s : Schedule) (t : Task) (front : BufferedLogWriter)
         (rest : list BufferedLogWriter),
    buffers_ t = front :: rest ->
    forallb (fun it => negb (stops it)) (iterations s) = true ->
    exists t' seg,
      RunTask s t = Running t'
      /\ trace t' = trace t ++ seg
      /\ current_data_written_ t'
         = fold_left (fun acc b => wrap64 (acc + b)) (unpersisted_from [] seg) 0.
Proof.
  intros s t front rest Hb Hall.
  destruct (TaskLoop_running_eq (iterations s) (locals_at_entry s)
              (task_at_entry t) front rest Hb eq_refl Hall) as [Hloop _].
  exists (task_at_exit front s t),
         (loop_events front (iterations s) (locals_at_entry s) (task_at_entry t)).
  split; [rewrite RunTask_unfold, Hloop; reflexivity|].
  split; [exact (trace_run_passes front (iterations s) (locals_at_entry s)
                  (task_at_entry t))|].
  exact (written_run_passes front (iterations s) (locals_at_entry s)
           (task_at_entry t) [] eq_refl).
Qed.

(** X10. With a buffers vector that is not empty, two calls of
    PersistLogFile in a row call Persist twice but invoke every pending
    callback once: the second call finds the pending list empty, invokes
    nothing and returns 0. *)
Theorem second_persist_invokes_nothing :
  forall (t : Task) (front : BufferedLogWriter) (rest : list BufferedLogWriter),
    buffers_ t = front :: rest ->
    exists t',
      (_ <- PersistLogFile ;; PersistLogFile) t = Done 0 t'
      /\ invoked (new_events (_ <- PersistLogFile ;; PersistLogFile) t)
         = commit_callbacks_ t
      /\ persisted (new_events (_ <- PersistLogFile ;; PersistLogFile) t)
         = [front; front]
      /\ commit_callbacks_ t' = [].
Proof.
  intros t front rest Hb.
  assert (Heq : (_ <- PersistLogFile ;; PersistLogFile) t
                = Done 0 (after_persist front (after_persist front t))).
  { unfold bind. rewrite (PersistLogFile_eq front rest t Hb).
    rewrite (PersistLogFile_eq front rest (after_persist front t) Hb).
    reflexivity. }
  exists (after_persist front (after_persist front t)).
  split; [exact Heq|].
  unfold new_events. rewrite Heq. cbn [final_task].
  assert (Htr : trace (after_persist front (after_persist front t))
                = trace t ++ persist_events front (commit_callbacks_ t)
                  ++ persist_events front []).
  { cbn -[persist_events]. rewrite <- app_assoc. reflexivity. }
  rewrite Htr, skipn_length_app, invoked_app, persisted_app.
  rewrite !invoked_persist_events, !persisted_persist_events, app_nil_r.
  repeat split.
Qed.

(** ** The further properties on the concrete run *)







Lemma pending_callbacks_are_the_flushed_unpersisted_ones_witness :
  buffers_ sample_task = writer0 :: [writer0]
  /\ forallb (fun it => negb (stops it)) (iterations open_schedule) = true
  /\ exists t' seg,
       RunTask open_schedule sample_task = Running t'
       /\ run_task_ t' = true
       /\ trace t' = trace sample_task ++ seg
       /\ durable_walk
            {| unflushed := enqueued one_write; unsynced := []; synced := [] |} seg
          = Some {| unflushed := filled_buffer_queue_ t';
                    unsynced := commit_callbacks_ t'; synced := [] |}.
Proof.
  split; [reflexivity|]. split; [reflexivity|].
  exact (pending_callbacks_are_the_flushed_unpersisted_ones open_schedule
           sample_task writer0 [writer0] eq_refl eq_refl).
Defined.


Lemma counter_is_the_bytes_flushed_since_the_last_persist_witness :
  buffers_ sample_task = writer0 :: [writer0]
  /\ forallb (fun it => negb (stops it)) (iterations open_schedule) = true
  /\ exists t' seg,
       RunTask open_schedule sample_task = Running t'
       /\ trace t' = trace sample_task ++ seg
       /\ current_data_written_ t'
          = fold_left (fun acc b => wrap64 (acc + b)) (unpersisted_from [] seg) 0.
Proof.
  split; [reflexivity|]. split; [reflexivity|].
  exact (counter_is_the_bytes_flushed_since_the_last_persist open_schedule
           sample_task writer0 [writer0] eq_refl eq_refl).
Defined.

Lemma second_persist_invokes_nothing_witness :
  buffers_ task_after_pass1 = writer0 :: [writer0]
  /\ exists t',
       (_ <- PersistLogFile ;; PersistLogFile) task_after_pass1 = Done 0 t'
       /\ invoked (new_events (_ <- PersistLogFile ;; PersistLogFile)
                              task_after_pass1)
          = [(1%nat, 7%nat); (1%nat, 8%nat)].
Proof.
  split; [reflexivity|].
  destruct (second_persist_invokes_nothing task_after_pass1 writer0 [writer0]
              eq_refl) as (t' & Hrun & Hinv & _).
  exists t'. split; [exact Hrun|]. rewrite Hinv. reflexivity.
Defined.
